(** * ragas: the result cache ([ragas/cache.py]) and the output-repair loop
      ([ragas/prompt/base.py])

    A shallow embedding of the two pieces of the evaluation toolkit that wrap
    every model invocation, and the properties the specification states about
    them.

    - Python exceptions are values of [exn]; a call either returns, raises, or
      (in the model only) runs past its recursion bound.
    - Objects that the code treats as opaque capabilities (the model client,
      the pydantic parsing layer, the cache backend) are type classes, after
      the abstract base classes of the source.
    - State is passed explicitly: the client's state and the log of model
      calls for the prompts, the backend store and the log of backend and
      callable invocations for the cache. *)

From Stdlib Require Import ZArith NArith QArith.QArith_base List Ascii String Permutation Sorted Lia.
From Stdlib Require Import OrderedTypeEx.
From stdpp Require Import base option list strings gmap pretty sorting.
From stdpp Require Import list_numbers.

#[local] Set Warnings "-register-all".

Local Open Scope Z_scope.

(** ** Exceptions and outcomes *)

(** The exceptions the modelled code raises or lets through.  [OtherError]
    stands for any exception of a collaborator (a transport error of the model
    client, an I/O error of the backend, an error of a wrapped callable).
    The class [RagasOutputParserException] is declared in [ragas/exceptions.py],
    which is not among the sources at hand: an instance is taken to be
    determined by the one argument, [num_retries], that its only construction
    site in [parse_output_string] passes. *)
Inductive exn : Type :=
| TypeError
| IndexError
| OutputParserException
| RagasOutputParserException (num_retries : Z)
| OtherError (name : string).

(** The result of running a piece of code: [Diverge] is the model's own
    verdict that the recursion went deeper than the bound it was run with. *)
Inductive outcome (A : Type) : Type :=
| Return (a : A)
| Raise (e : exn)
| Diverge.
Arguments Return {A} a.
Arguments Raise {A} e.
Arguments Diverge {A}.

(** A computation over a state [S]. *)
Definition M (S A : Type) : Type := S -> outcome A * S.

Definition ret {S A} (a : A) : M S A := fun s => (Return a, s).
Definition raise {S A} (e : exn) : M S A := fun s => (Raise e, s).
Definition diverge {S A} : M S A := fun s => (Diverge, s).
Definition bind {S A B} (c : M S A) (k : A -> M S B) : M S B :=
  fun s =>
    match c s with
    | (Return a, s') => k a s'
    | (Raise e, s') => (Raise e, s')
    | (Diverge, s') => (Diverge, s')
    end.

(** The outcome of a result that is an error or a value. *)
Definition outcome_of {A} (r : exn + A) : outcome A :=
  match r with
  | inl e => Raise e
  | inr v => Return v
  end.

Notation "x <- c ;; k" := (bind c (fun x => k))
  (at level 100, c at next level, right associativity).

Definition newline : string := String (ascii_of_nat 10) EmptyString.
Definition dquote : string := String (ascii_of_nat 34) EmptyString.
Definition backslash : string := String (ascii_of_nat 92) EmptyString.

(** ** SHA-256, as [hashlib.sha256(..).hexdigest()] computes it (FIPS 180-4) *)

Module SHA256.

(** 32-bit words are integers in [0, 2^32); sums wrap around. *)
Definition wrap32 (x : Z) : Z := x mod 2 ^ 32.
Definition add32 (x y : Z) : Z := wrap32 (x + y).
Definition rotr (k x : Z) : Z :=
  Z.lor (Z.shiftr x k) (wrap32 (Z.shiftl x (32 - k))).
Definition not32 (x : Z) : Z := Z.lxor x 0xffffffff.

Definition Ch (x y z : Z) : Z := Z.lxor (Z.land x y) (Z.land (not32 x) z).
Definition Maj (x y z : Z) : Z :=
  Z.lxor (Z.lxor (Z.land x y) (Z.land x z)) (Z.land y z).
Definition Sigma0 (x : Z) : Z := Z.lxor (Z.lxor (rotr 2 x) (rotr 13 x)) (rotr 22 x).
Definition Sigma1 (x : Z) : Z := Z.lxor (Z.lxor (rotr 6 x) (rotr 11 x)) (rotr 25 x).
Definition sigma0 (x : Z) : Z := Z.lxor (Z.lxor (rotr 7 x) (rotr 18 x)) (Z.shiftr x 3).
Definition sigma1 (x : Z) : Z := Z.lxor (Z.lxor (rotr 17 x) (rotr 19 x)) (Z.shiftr x 10).

(** The constants, by their definition: the first 32 bits of the fractional
    parts of the cube roots of the first 64 primes, and for the initial hash
    value those of the square roots of the first 8 primes. *)
Definition is_prime (p : Z) : bool :=
  forallb (fun d => negb (p mod Z.of_nat d =? 0)) (seq 2 (Z.to_nat p - 2)).

Definition primes_below (bound : nat) : list Z :=
  List.filter is_prime (map Z.of_nat (seq 2 (bound - 2))).

(** The greatest [r' >= r] that differs from [r] in its lowest [bits] bits
    only and has [r' ^ e <= x]. *)
Fixpoint root_from (e x : Z) (bits : nat) (r : Z) : Z :=
  match bits with
  | O => r
  | S b =>
      let r' := r + 2 ^ Z.of_nat b in
      root_from e x b (if r' ^ e <=? x then r' else r)
  end.

Definition root_fraction (e p : Z) : Z :=
  wrap32 (root_from e (p * 2 ^ (32 * e)) 36 0).

Definition K256 : list Z :=
  Eval vm_compute in map (root_fraction 3) (primes_below 312).

Definition H256 : list Z :=
  Eval vm_compute in map (root_fraction 2) (primes_below 20).

(** Padding: the byte 0x80, zero bytes up to 56 modulo 64, and the length in
    bits as a 64-bit big-endian integer. *)
Fixpoint be_bytes (k : nat) (x : Z) : list Z :=
  match k with
  | O => []
  | S k' => be_bytes k' (x / 256) ++ [x mod 256]
  end.

Definition pad (msg : list Z) : list Z :=
  let len := Z.of_nat (List.length msg) in
  msg ++ [0x80] ++ repeat 0 (Z.to_nat ((55 - len) mod 64)) ++ be_bytes 8 (8 * len).

Fixpoint be_words (k : nat) (bytes : list Z) : list Z :=
  match k, bytes with
  | S k', b0 :: b1 :: b2 :: b3 :: rest =>
      (((b0 * 256 + b1) * 256 + b2) * 256 + b3) :: be_words k' rest
  | _, _ => []
  end.

(** The message schedule, most recent word first: [w] holds W(t-1), W(t-2), ... *)
Fixpoint schedule (k : nat) (w : list Z) : list Z :=
  match k with
  | O => w
  | S k' =>
      let wt := add32 (add32 (sigma1 (nth 1 w 0)) (nth 6 w 0))
                      (add32 (sigma0 (nth 14 w 0)) (nth 15 w 0)) in
      schedule k' (wt :: w)
  end.

Definition round (st : list Z) (kw : Z * Z) : list Z :=
  match st with
  | [a; b; c; d; e; f; g; h] =>
      let t1 := add32 (add32 (add32 h (Sigma1 e)) (add32 (Ch e f g) (fst kw))) (snd kw) in
      let t2 := add32 (Sigma0 a) (Maj a b c) in
      [add32 t1 t2; a; b; c; add32 d t1; e; f; g]
  | _ => st
  end.

Definition compress (h : list Z) (block : list Z) : list Z :=
  let w := rev (schedule 48 (rev (be_words 16 block))) in
  let st := fold_left round (combine K256 w) h in
  map (fun p => add32 (fst p) (snd p)) (combine h st).

Fixpoint blocks (k : nat) (bytes : list Z) : list (list Z) :=
  match k with
  | O => []
  | S k' => firstn 64 bytes :: blocks k' (skipn 64 bytes)
  end.

Definition digest (msg : list Z) : list Z :=
  let p := pad msg in
  fold_left compress (blocks (List.length p / 64) p) H256.

Definition hex_digit (x : Z) : ascii :=
  if x <? 10 then ascii_of_N (Z.to_N (48 + x)) else ascii_of_N (Z.to_N (87 + x)).

Fixpoint hex (k : nat) (x : Z) : string :=
  match k with
  | O => EmptyString
  | S k' => String.append (hex k' (x / 16)) (String (hex_digit (x mod 16)) EmptyString)
  end.

Definition bytes_of_string (s : string) : list Z :=
  map (fun c => Z.of_N (N_of_ascii c)) (list_ascii_of_string s).

(** [hashlib.sha256(s.encode("utf-8")).hexdigest()] for a string of ASCII
    characters. *)
Definition hexdigest (s : string) : string :=
  String.concat EmptyString (map (hex 8) (digest (bytes_of_string s))).

End SHA256.

(** ** The memoizer: [ragas/cache.py] *)

Module Cache.

(** *** Python values *)

(** Hashable values: what a dict key or a set element can be, and what
    [_make_hashable] produces (scalars and tuples of them).  Strings are
    sequences of code points below 256; floats, bytes and frozensets are not
    modelled. *)
Inductive hval : Type :=
| HNone
| HBool (b : bool)
| HInt (z : Z)
| HStr (s : string)
| HTuple (l : list hval).

(** Argument values.  A dict lists its items in insertion order and a set its
    elements in iteration order; a [PModel] is a pydantic [BaseModel] with its
    fields in declaration order. *)
Inductive pyval : Type :=
| PNone
| PBool (b : bool)
| PInt (z : Z)
| PStr (s : string)
| PTuple (l : list pyval)
| PList (l : list pyval)
| PDict (items : list (hval * pyval))
| PSet (elems : list hval)
| PModel (fields : list (string * pyval)).

(** [a == b] on hashable values ([True == 1] holds in Python). *)
Fixpoint py_eq (a b : hval) : bool :=
  match a, b with
  | HNone, HNone => true
  | HBool x, HBool y => Bool.eqb x y
  | HBool x, HInt y => Z.b2z x =? y
  | HInt x, HBool y => x =? Z.b2z y
  | HInt x, HInt y => x =? y
  | HStr s, HStr t => String.eqb s t
  | HTuple l, HTuple m =>
      (fix all (l m : list hval) : bool :=
         match l, m with
         | [], [] => true
         | x :: l', y :: m' => py_eq x y && all l' m'
         | _, _ => false
         end) l m
  | _, _ => false
  end.

(** [a < b] on hashable values; [None] is the [TypeError] that Python raises
    for operands without an order.  Tuples compare at the first position
    where they differ under [==]. *)
Fixpoint py_lt (a b : hval) : option bool :=
  match a, b with
  | HBool x, HBool y => Some (Z.b2z x <? Z.b2z y)
  | HBool x, HInt y => Some (Z.b2z x <? y)
  | HInt x, HBool y => Some (x <? Z.b2z y)
  | HInt x, HInt y => Some (x <? y)
  | HStr s, HStr t => Some (String.ltb s t)
  | HTuple l, HTuple m =>
      (fix lex (l m : list hval) : option bool :=
         match l, m with
         | [], [] => Some false
         | [], _ :: _ => Some true
         | _ :: _, [] => Some false
         | x :: l', y :: m' => if py_eq x y then lex l' m' else py_lt x y
         end) l m
  | _, _ => None
  end.

(** [sorted(l)]: a stable sort that only asks [<].  Python raises the
    [TypeError] of the first comparison that has none; the comparisons made
    here are those of an insertion sort, which on a list whose elements are
    pairwise ordered gives the same list as Python's. *)
Fixpoint insert_sorted (x : hval) (l : list hval) : option (list hval) :=
  match l with
  | [] => Some [x]
  | y :: r =>
      b ← py_lt y x;
      if b : bool then r' ← insert_sorted x r; Some (y :: r')
      else Some (x :: y :: r)
  end.

Fixpoint sorted (l : list hval) : option (list hval) :=
  match l with
  | [] => Some []
  | x :: r => r' ← sorted r; insert_sorted x r'
  end.

(** [_make_hashable] on a value that is hashable already. *)
Fixpoint _make_hashable_h (o : hval) : hval :=
  match o with
  | HTuple l => HTuple (map _make_hashable_h l)
  | _ => o
  end.

(** [o.model_dump()]: the exported field mapping, nested models dumped too. *)
Fixpoint model_dump_value (o : pyval) : pyval :=
  match o with
  | PTuple l => PTuple (map model_dump_value l)
  | PList l => PList (map model_dump_value l)
  | PDict items => PDict (map (fun kv => (kv.1, model_dump_value kv.2)) items)
  | PModel fields =>
      PDict (map (fun kv => (HStr kv.1, model_dump_value kv.2)) fields)
  | _ => o
  end.

Definition model_dump (fields : list (string * pyval)) : pyval :=
  model_dump_value (PModel fields).

(** [_make_hashable]; [None] is a [TypeError] out of [sorted].  The
    elements of a set are hashable, so [_make_hashable_h] is applied to them.
    The [BaseModel] case is the dict case over the model's fields: that this
    is [_make_hashable(o.model_dump())] is [_make_hashable_model_dump] below. *)
Fixpoint _make_hashable (o : pyval) : option hval :=
  match o with
  | PTuple l | PList l =>
      HTuple <$>
        (fix each (l : list pyval) : option (list hval) :=
           match l with
           | [] => Some []
           | e :: r => h ← _make_hashable e; hs ← each r; Some (h :: hs)
           end) l
  | PDict items =>
      pairs ← (fix each (l : list (hval * pyval)) : option (list hval) :=
                 match l with
                 | [] => Some []
                 | (k, v) :: r =>
                     h ← _make_hashable v; ps ← each r;
                     Some (HTuple [k; h] :: ps)
                 end) items;
      HTuple <$> sorted pairs
  | PSet elems => HTuple <$> sorted (map _make_hashable_h elems)
  | PModel fields =>
      pairs ← (fix each (l : list (string * pyval)) : option (list hval) :=
                 match l with
                 | [] => Some []
                 | (k, v) :: r =>
                     h ← _make_hashable v; ps ← each r;
                     Some (HTuple [HStr k; h] :: ps)
                 end) fields;
      HTuple <$> sorted pairs
  | PNone => Some HNone
  | PBool b => Some (HBool b)
  | PInt z => Some (HInt z)
  | PStr s => Some (HStr s)
  end.

(** *** Notions used to state the properties of the canonical form *)

(** The list [(k, _make_hashable(v)) for k, v in o.items()], before it is
    sorted. *)
Fixpoint dict_pairs (l : list (hval * pyval)) : option (list hval) :=
  match l with
  | [] => Some []
  | (k, v) :: r =>
      h ← _make_hashable v; ps ← dict_pairs r; Some (HTuple [k; h] :: ps)
  end.

(** The tuple [(_make_hashable(e) for e in o)] of a list or tuple. *)
Fixpoint tuple_items (l : list pyval) : option (list hval) :=
  match l with
  | [] => Some []
  | e :: r => h ← _make_hashable e; hs ← tuple_items r; Some (h :: hs)
  end.

(** The item [(k, h)] of a canonical mapping, and the key of an item. *)
Definition item (k : string) (h : hval) : hval := HTuple [HStr k; h].

Definition item_key (x : hval) : string :=
  match x with
  | HTuple (HStr k :: _) => k
  | _ => ""
  end.

Definition is_item (x : hval) : Prop := exists k h, x = item k h.

Definition key_lt (x y : hval) : Prop :=
  String.ltb (item_key x) (item_key y) = true.

(** Two results that both fail, or both succeed with the same elements. *)
Definition same_elements (o1 o2 : option (list hval)) : Prop :=
  match o1, o2 with
  | Some l1, Some l2 => l1 ≡ₚ l2
  | None, None => True
  | _, _ => False
  end.

(** *** [json.dumps(key_data, sort_keys=True, default=str)] *)

(** The values dumped are canonical forms and strings, which [json] writes
    itself (a tuple as an array): [default] is not called on them. *)

Definition hex4 (x : N) : string :=
  SHA256.hex 4 (Z.of_N x).

(** One character of a JSON string with [ensure_ascii]: the quote, the
    backslash and everything outside [' '..'~'] are escaped. *)
Definition json_escape_char (c : ascii) : string :=
  let k := N_of_ascii c in
  if (k =? 34)%N then backslash +:+ dquote
  else if (k =? 92)%N then backslash +:+ backslash
  else if (k =? 10)%N then backslash +:+ "n"
  else if (k =? 13)%N then backslash +:+ "r"
  else if (k =? 9)%N then backslash +:+ "t"
  else if (k =? 8)%N then backslash +:+ "b"
  else if (k =? 12)%N then backslash +:+ "f"
  else if ((k <? 32) || (126 <? k))%N then backslash +:+ "u" +:+ hex4 k
  else String c EmptyString.

Fixpoint json_escape (s : string) : string :=
  match s with
  | EmptyString => EmptyString
  | String c r => json_escape_char c +:+ json_escape r
  end.

Definition json_string (s : string) : string := dquote +:+ json_escape s +:+ dquote.

Fixpoint json_dumps (v : hval) : string :=
  match v with
  | HNone => "null"
  | HBool true => "true"
  | HBool false => "false"
  | HInt z => pretty z
  | HStr s => json_string s
  | HTuple l =>
      "[" +:+
      (fix items (l : list hval) : string :=
         match l with
         | [] => ""
         | [x] => json_dumps x
         | x :: r => json_dumps x +:+ ", " +:+ items r
         end) l
      +:+ "]"
  end.

(** The dump of [{"function": .., "args": .., "kwargs": ..}] with its keys
    sorted. *)
Definition json_dumps_key_data (function : string) (args kwargs : hval) : string :=
  "{" +:+ json_string "args" +:+ ": " +:+ json_dumps args +:+ ", "
  +:+ json_string "function" +:+ ": " +:+ json_string function +:+ ", "
  +:+ json_string "kwargs" +:+ ": " +:+ json_dumps kwargs +:+ "}".

(** *** The cache key *)

(** A callable: its [__qualname__], what [inspect.ismethod] and
    [inspect.iscoroutinefunction] say of it, and its body, which acts on a
    state of type [W] and returns or raises. *)
Record pyfunc (W : Type) : Type := {
  qualname : string;
  ismethod : bool;
  iscoroutinefunction : bool;
  body : list pyval -> list (string * pyval) -> W -> (exn + pyval) * W
}.
Arguments qualname {W} _.
Arguments ismethod {W} _.
Arguments iscoroutinefunction {W} _.
Arguments body {W} _ _ _ _.

Definition EXCLUDE_KEYS : list string := ["callbacks"; "llm"].

Definition excluded (k : string) : bool := existsb (String.eqb k) EXCLUDE_KEYS.

Definition filter_kwargs (kwargs : list (string * pyval)) : list (string * pyval) :=
  List.filter (fun kv => negb (excluded kv.1)) kwargs.

Definition kwargs_dict (kwargs : list (string * pyval)) : pyval :=
  PDict (map (fun kv => (HStr kv.1, kv.2)) kwargs).

Definition _generate_cache_key {W} (func : pyfunc W) (args : list pyval)
    (kwargs : list (string * pyval)) : option string :=
  let args := if ismethod func then tail args else args in
  let filtered_kwargs := filter_kwargs kwargs in
  a ← _make_hashable (PTuple args);
  k ← _make_hashable (kwargs_dict filtered_kwargs);
  let key_string := json_dumps_key_data (qualname func) a k in
  Some (SHA256.hexdigest key_string).

(** *** The backend *)

(** [CacheInterface]: the three operations of a backend whose state is [B];
    each returns or raises, and may change the backend. *)
Class CacheInterface (B : Type) : Type := {
  get : string -> B -> (exn + pyval) * B;
  set : string -> pyval -> B -> (exn + unit) * B;
  has_key : string -> B -> (exn + bool) * B
}.

(** [DiskCacheBackend]: the keyed store of [diskcache.Cache], without expiry
    or eviction; [Cache.get] answers [None] for a key it does not hold. *)
Record DiskCacheBackend : Type := { cache : gmap string pyval }.

#[export] Instance DiskCacheBackend_interface : CacheInterface DiskCacheBackend := {|
  get key self := (inr (default PNone (cache self !! key)), self);
  set key value self := (inr tt, {| cache := <[key := value]> (cache self) |});
  has_key key self := (inr (bool_decide (is_Some (cache self !! key))), self)
|}.

(** *** The decorator *)

(** What a wrapped call does to its surroundings, oldest first. *)
Inductive event : Type :=
| EvHasKey (key : string)
| EvGet (key : string)
| EvSet (key : string) (value : pyval)
| EvCall (args : list pyval) (kwargs : list (string * pyval)).

(** The state a wrapped call runs in: the backend, the state the callable
    acts on, the process environment, and the log of events. *)
Record cstate (B W : Type) : Type := {
  backend : B;
  world : W;
  environ : gmap string string;
  trace : list event
}.
Arguments backend {B W} _.
Arguments world {B W} _.
Arguments environ {B W} _.
Arguments trace {B W} _.

Section Decorator.

Context {B W : Type} `{CacheInterface B}.

(** [os.environ.get("RAGAS_CACHE_ENABLED", "0") == "1"] *)
Definition is_caching_enabled (s : cstate B W) : bool :=
  String.eqb (default "0" (environ s !! "RAGAS_CACHE_ENABLED")) "1".

(** The call of the wrapped callable with the arguments of the wrapper. *)
Definition call_func (func : pyfunc W) (args : list pyval)
    (kwargs : list (string * pyval)) : M (cstate B W) pyval :=
  fun s =>
    let '(r, w') := body func args kwargs (world s) in
    let s' := {| backend := backend s; world := w'; environ := environ s;
                 trace := trace s ++ [EvCall args kwargs] |} in
    match r with
    | inl e => (Raise e, s')
    | inr v => (Return v, s')
    end.

Definition backend_op {A} (ev : event) (op : B -> (exn + A) * B)
  : M (cstate B W) A :=
  fun s =>
    let '(r, b') := op (backend s) in
    let s' := {| backend := b'; world := world s; environ := environ s;
                 trace := trace s ++ [ev] |} in
    match r with
    | inl e => (Raise e, s')
    | inr v => (Return v, s')
    end.

(** [cache_backend.has_key(cache_key)], [.get(cache_key)] and
    [.set(cache_key, result)] *)
Definition backend_has_key (key : string) : M (cstate B W) bool :=
  backend_op (EvHasKey key) (has_key key).
Definition backend_get (key : string) : M (cstate B W) pyval :=
  backend_op (EvGet key) (get key).
Definition backend_set (key : string) (value : pyval) : M (cstate B W) unit :=
  backend_op (EvSet key value) (set key value).

(** [_generate_cache_key(func, args, kwargs)], raising its [TypeError]. *)
Definition generate_cache_key (func : pyfunc W) (args : list pyval)
    (kwargs : list (string * pyval)) : M (cstate B W) string :=
  match _generate_cache_key func args kwargs with
  | Some cache_key => ret cache_key
  | None => raise TypeError
  end.

Definition sync_wrapper (func : pyfunc W) (args : list pyval)
    (kwargs : list (string * pyval)) : M (cstate B W) pyval :=
  fun s =>
    if negb (is_caching_enabled s) then call_func func args kwargs s
    else
      (cache_key <- generate_cache_key func args kwargs ;;
       present <- backend_has_key cache_key ;;
       if present : bool then backend_get cache_key
       else
         result <- call_func func args kwargs ;;
         _ <- backend_set cache_key result ;;
         ret result) s.

(** [async_wrapper] has the body of [sync_wrapper] with the callable awaited;
    a coroutine is run to its end here, so no other task runs in between. *)
Definition async_wrapper (func : pyfunc W) (args : list pyval)
    (kwargs : list (string * pyval)) : M (cstate B W) pyval :=
  fun s =>
    if negb (is_caching_enabled s) then call_func func args kwargs s
    else
      (cache_key <- generate_cache_key func args kwargs ;;
       present <- backend_has_key cache_key ;;
       if present : bool then backend_get cache_key
       else
         result <- call_func func args kwargs ;;
         _ <- backend_set cache_key result ;;
         ret result) s.

(** [cacher(cache_backend)(func)] *)
Definition decorator (func : pyfunc W) (args : list pyval)
    (kwargs : list (string * pyval)) : M (cstate B W) pyval :=
  let is_async := iscoroutinefunction func in
  if is_async then async_wrapper func args kwargs
  else sync_wrapper func args kwargs.

(** A run of calls of the wrapped callable, one after the other. *)
Fixpoint run_calls (func : pyfunc W)
    (cs : list (list pyval * list (string * pyval))) (s : cstate B W)
  : list (outcome pyval) * cstate B W :=
  match cs with
  | [] => ([], s)
  | c :: cs' =>
      let '(r, s1) := decorator func c.1 c.2 s in
      let '(rs, s2) := run_calls func cs' s1 in
      (r :: rs, s2)
  end.

End Decorator.

End Cache.

(** ** The repairing invoker: [ragas/prompt/base.py] *)

Module Prompt.

(** Options of one model call ([n], [temperature], [stop], [callbacks]); the
    temperature is only passed through, so a rational stands for the float. *)
Record gen_options : Type := {
  n : Z;
  temperature : option Q;
  stop : option (list string);
  callbacks : list string
}.

(** [BaseRagasLLM]: the model client.  [L] is the state of the client; a call
    returns the generations ([resp.generations], a list of lists of texts) or
    raises. *)
Class BaseRagasLLM (L : Type) : Type := {
  llm_generate : string -> gen_options -> L -> (exn + list (list string)) * L
}.

(** The pydantic layer: model classes, their instances, and
    [PydanticOutputParser.parse], which raises [OutputParserException]
    ([None] here) on text that does not fit the model. *)
Class Pydantic (Model Obj : Type) : Type := {
  parse : Model -> string -> option Obj;
  model_json_schema : Model -> string;
  model_dump_json : Obj -> string;
  StringIO : Model;
  text : Obj -> string;
  OutputStringAndPromptModel : Model;
  OutputStringAndPrompt : string -> string -> Obj
}.

Section Invoker.

Context {L Model Obj : Type} `{BaseRagasLLM L} `{Pydantic Model Obj}.

(** The state the invoker runs in: the client and the log of the model calls
    made so far (prompt text and options), oldest first. *)
Record pstate : Type := {
  llm : L;
  calls : list (string * gen_options)
}.

Record PydanticPrompt : Type := {
  input_model : Model;
  output_model : Model;
  instruction : string;
  examples : list (Obj * Obj)
}.

Record PromptValue : Type := { prompt_str : string }.

(** Modelled from the spec: [PromptValue.to_string] of [ragas.llms.prompt],
    which is not among the sources at hand.  The repair request holds "the
    exact prompt text that produced" the malformed output, so the method
    gives back the text the [PromptValue] was built from. *)
Definition PromptValue_to_string (p : PromptValue) : string := prompt_str p.

Definition _generate_instruction (self : PydanticPrompt) : string :=
  instruction self.

Definition _generate_output_signature (self : PydanticPrompt) : string :=
  "Please return the output in a JSON format that complies with the "
  +:+ "following schema as specified in JSON Schema and OpenAPI specification:"
  +:+ newline +:+ model_json_schema (output_model self).

Fixpoint join (sep : string) (l : list string) : string :=
  match l with
  | [] => ""
  | [s] => s
  | s :: r => s +:+ sep +:+ join sep r
  end.

Definition _generate_examples (self : PydanticPrompt) : string :=
  match examples self with
  | [] => ""
  | es =>
      "These are some examples to show how to perform the above instruction"
      +:+ newline
      +:+ join (newline +:+ newline)
            (map (fun e : Obj * Obj =>
                    instruction self +:+ newline +:+ "input: "
                    +:+ model_dump_json (fst e) +:+ newline +:+ "output: "
                    +:+ model_dump_json (snd e)) es)
  end.

Definition to_string (self : PydanticPrompt) (data : Obj) : string :=
  _generate_instruction self +:+ newline
  +:+ _generate_output_signature self +:+ newline
  +:+ _generate_examples self
  +:+ newline +:+ "Now perform the above instruction with the following input"
  +:+ newline +:+ "input: " +:+ model_dump_json data +:+ newline +:+ "output: ".

Definition process_input (self : PydanticPrompt) (input : Obj) : Obj := input.
Definition process_output (self : PydanticPrompt) (output input : Obj) : Obj := output.

(** [await llm.generate(prompt_value, n=.., ...)]: the call is logged, the
    client moves to its next state, and an error of the client is raised. *)
Definition call_llm (prompt_value : PromptValue) (o : gen_options)
  : M pstate (list (list string)) :=
  fun s =>
    let '(r, l') := llm_generate (prompt_str prompt_value) o (llm s) in
    let s' := {| llm := l'; calls := calls s ++ [(prompt_str prompt_value, o)] |} in
    match r with
    | inl e => (Raise e, s')
    | inr resp => (Return resp, s')
    end.

(** [resp.generations[0][i].text] *)
Definition generation_text (resp : list (list string)) (i : nat) : M pstate string :=
  match resp !! 0%nat with
  | None => raise IndexError
  | Some g =>
      match g !! i with
      | None => raise IndexError
      | Some t => ret t
      end
  end.

(** [FixOutputFormat] and its instance [fix_output_format_prompt]. *)
Definition fix_output_format_prompt : PydanticPrompt := {|
  input_model := OutputStringAndPromptModel;
  output_model := StringIO;
  instruction := "The output string did not satisfy the constraints given in the prompt. Fix the output string and return it.";
  examples := []
|}.

(** [RagasOutputParser.parse_output_string] and [PydanticPrompt.generate]
    call each other; [fuel] bounds the depth of that recursion. *)
Fixpoint parse_output_string (fuel : nat) (pydantic_object : Model)
    (output_string : string) (prompt_value : PromptValue) (max_retries : Z)
    {struct fuel} : M pstate Obj :=
  match fuel with
  | O => diverge
  | S fuel' =>
      match parse pydantic_object output_string with
      | Some result => ret result
      | None =>
          if negb (max_retries =? 0) then
            result <- generate fuel' fix_output_format_prompt
                        (OutputStringAndPrompt output_string
                           (PromptValue_to_string prompt_value))
                        None None [] ;;
            parse_output_string fuel' pydantic_object (text result)
              prompt_value (max_retries - 1)
          else raise (RagasOutputParserException max_retries)
      end
  end
with generate (fuel : nat) (self : PydanticPrompt) (data : Obj)
    (temperature : option Q) (stop : option (list string))
    (callbacks : list string) {struct fuel} : M pstate Obj :=
  match fuel with
  | O => diverge
  | S fuel' =>
      let processed_data := process_input self data in
      let prompt_value := {| prompt_str := to_string self processed_data |} in
      resp <- call_llm prompt_value
                {| n := 1; temperature := temperature; stop := stop;
                   callbacks := callbacks |} ;;
      output_string <- generation_text resp 0 ;;
      answer <- parse_output_string fuel' (output_model self) output_string
                  prompt_value 3 ;;
      ret (process_output self answer data)
  end.

(** The body of the [for i in range(n)] loop of [generate_multiple], over the
    indices still to do and the list built so far. *)
Fixpoint generate_multiple_loop (fuel : nat) (self : PydanticPrompt) (data : Obj)
    (prompt_value : PromptValue) (resp : list (list string))
    (range : list nat) (output_models : list Obj) : M pstate (list Obj) :=
  match range with
  | [] => ret output_models
  | i :: range' =>
      output_string <- generation_text resp i ;;
      answer <- parse_output_string fuel (output_model self) output_string
                  prompt_value 3 ;;
      generate_multiple_loop fuel self data prompt_value resp range'
        (output_models ++ [process_output self answer data])
  end.

Definition generate_multiple (fuel : nat) (self : PydanticPrompt) (data : Obj)
    (n : Z) (temperature : option Q) (stop : option (list string))
    (callbacks : list string) : M pstate (list Obj) :=
  match fuel with
  | O => diverge
  | S fuel' =>
      let processed_data := process_input self data in
      let prompt_value := {| prompt_str := to_string self processed_data |} in
      resp <- call_llm prompt_value
                {| n := n; temperature := temperature; stop := stop;
                   callbacks := callbacks |} ;;
      generate_multiple_loop fuel' self data prompt_value resp
        (seq 0 (Z.to_nat n)) []
  end.

(** The number of model calls made between two states. *)
Definition model_calls (s s' : pstate) : Z :=
  Z.of_nat (length (calls s')) - Z.of_nat (length (calls s)).

(** A client that answers every call with at least one generation. *)
Definition responsive : Prop :=
  forall p o l, exists t g rest l',
    llm_generate p o l = (inr ((t :: g) :: rest), l').

End Invoker.

Arguments pstate : clear implicits.
Arguments PydanticPrompt : clear implicits.

End Prompt.

(** ** Concrete collaborators, for the examples *)

Module Fixtures.
Import Prompt.

(** The two model classes of the source and one class for answers; an object
    is represented by its text. *)
Inductive model : Type := M_StringIO | M_OutputStringAndPrompt | M_Answer.

Definition pydantic_of (parse : model -> string -> option string)
  : Pydantic model string := {|
  parse := parse;
  model_json_schema := fun _ => "{}";
  model_dump_json := fun o => o;
  StringIO := M_StringIO;
  text := fun o => o;
  OutputStringAndPromptModel := M_OutputStringAndPrompt;
  OutputStringAndPrompt := fun output_string _ => output_string
|}.

(** No text fits any class. *)
Definition never_parses : Pydantic model string :=
  pydantic_of (fun _ _ => None).

(** Every text is a [StringIO]; nothing is an answer. *)
Definition repairs_parse : Pydantic model string :=
  pydantic_of (fun m t => match m with M_StringIO => Some t | _ => None end).

(** Every text is a [StringIO]; the only answer is the text [good]. *)
Definition good_parses : Pydantic model string :=
  pydantic_of (fun m t =>
                 match m with
                 | M_StringIO => Some t
                 | M_Answer => if String.eqb t "good" then Some t else None
                 | M_OutputStringAndPrompt => None
                 end).

(** Clients without state: one that gives the same text to every call, one
    that raises on every call, and one that gives two candidates when asked
    for two and the text [bad] otherwise. *)
Definition always_answers (t : string) : BaseRagasLLM unit :=
  {| llm_generate := fun _ _ l => (inr [[t]], l) |}.

Definition always_fails (e : exn) : BaseRagasLLM unit :=
  {| llm_generate := fun _ _ l => (inl e, l) |}.

Definition two_candidates (first second : string) : BaseRagasLLM unit :=
  {| llm_generate := fun _ o l =>
       (inr [if n o =? 2 then [first; second] else ["bad"]], l) |}.

Definition answer_prompt : PydanticPrompt model string := {|
  input_model := M_Answer;
  output_model := M_Answer;
  instruction := "Answer the question.";
  examples := []
|}.

Definition start : pstate unit := {| llm := tt; calls := [] |}.

Definition question : PromptValue := {| prompt_str := "What is asked?" |}.

(** The repair loop on the text [t] with a budget of 3, with a client that
    answers every repair call with [t] again, so that [t] is every text the
    target decoder sees, the last one included. *)
Definition repair_run (t : string) : outcome string * pstate unit :=
  @parse_output_string unit model string (always_answers t) repairs_parse
    6 M_Answer t question 3 start.

(** [generate_multiple] asked for two candidates. *)
Definition two_candidates_run (first second : string)
  : outcome (list string) * pstate unit :=
  @generate_multiple unit model string (two_candidates first second) good_parses
    10 answer_prompt "q" 2 None None [] start.

(** Callables on a counter: [counting] returns the number of times it was
    called before, [failing] raises every time; and callables without state:
    [echo] returns its first argument, [answer_42] returns 42 and
    [raises_disk_full] raises. *)
Import Cache.

Definition counting : pyfunc nat := {|
  qualname := "counting";
  ismethod := false;
  iscoroutinefunction := false;
  body := fun _ _ w => (inr (PInt (Z.of_nat w)), S w)
|}.

Definition failing : pyfunc nat := {|
  qualname := "failing";
  ismethod := false;
  iscoroutinefunction := true;
  body := fun _ _ w => (inl (OtherError "boom"), S w)
|}.

Definition echo_result (args : list pyval) (kwargs : list (string * pyval))
  : exn + pyval :=
  match args with
  | x :: _ => inr x
  | [] => inl (OtherError "no argument")
  end.

Definition echo : pyfunc unit := {|
  qualname := "echo";
  ismethod := false;
  iscoroutinefunction := false;
  body := fun args kwargs w => (echo_result args kwargs, w)
|}.

Definition answer_42 : pyfunc unit := {|
  qualname := "answer";
  ismethod := false;
  iscoroutinefunction := false;
  body := fun _ _ w => (inr (PInt 42), w)
|}.

Definition raises_disk_full : pyfunc unit := {|
  qualname := "answer";
  ismethod := false;
  iscoroutinefunction := false;
  body := fun _ _ w => (inl (OtherError "disk full"), w)
|}.

(** The environment with the switch on and without it. *)
Definition env_on : gmap string string := {[ "RAGAS_CACHE_ENABLED" := "1" ]}.
Definition env_off : gmap string string := ∅.

(** A state with an empty disk cache. *)
Definition fresh {W} (env : gmap string string) (w : W)
  : cstate DiskCacheBackend W :=
  {| backend := {| cache := ∅ |}; world := w; environ := env; trace := [] |}.

(** A backend that holds nothing and cannot store. *)
Definition full_disk : CacheInterface unit := {|
  get := fun _ b => (inr PNone, b);
  set := fun _ _ b => (inl (OtherError "disk full"), b);
  has_key := fun _ b => (inr false, b)
|}.

Definition on_full_disk : cstate unit unit :=
  {| backend := tt; world := tt; environ := env_on; trace := [] |}.

(** Three calls of [echo], the first and the last with the same argument. *)
Definition three_calls : list (list pyval * list (string * pyval)) :=
  [([PInt 1], []); ([PInt 2], []); ([PInt 1], [])].

(** A set of an integer and a string. *)
Definition mixed_set : pyval := PSet [HInt 1; HStr "a"].

(** The inputs of the end-to-end example. *)
Definition a_function : pyfunc unit := {|
  qualname := "LLM.generate";
  ismethod := false;
  iscoroutinefunction := false;
  body := fun _ _ w => (inr PNone, w)
|}.

(** [{"a": 1, "b": [1, 2]}], the same with its keys in the other order, and
    the same with the list in the other order. *)
Definition input_ab : pyval :=
  PDict [(HStr "a", PInt 1); (HStr "b", PList [PInt 1; PInt 2])].
Definition input_ba : pyval :=
  PDict [(HStr "b", PList [PInt 1; PInt 2]); (HStr "a", PInt 1)].
Definition input_ab_reversed_list : pyval :=
  PDict [(HStr "a", PInt 1); (HStr "b", PList [PInt 2; PInt 1])].

(** The keys of the calls without arguments of [failing] and [answer_42]. *)
Definition failing_key : string :=
  Eval vm_compute in default "" (_generate_cache_key failing [] []).
Definition answer_key : string :=
  Eval vm_compute in default "" (_generate_cache_key answer_42 [] []).

(** The state after a first call of [counting] with caching on. *)
Definition after_first_call : cstate DiskCacheBackend nat :=
  (decorator counting [input_ab] [] (fresh env_on 0%nat)).2.

End Fixtures.

(** ** Errors of the data-handling code *)

(** The exceptions raised by [ragas/metrics/base.py], [ragas/validation.py]
    and [ragas/dataset_schema.py]. *)
Inductive pyerror : Type :=
| ZeroDivisionError
| ValueError (msg : string).

(** ** Batches: [ragas/metrics/base.py] *)

Module Metrics.

(** [range(start, stop)], and the integers it runs over. *)
Record py_range : Type := { start : Z; stop : Z }.

Definition range_list (r : py_range) : list Z := seqZ (start r) (stop r - start r).

(** The integers of [range(start, stop, step)], for a step other than 0. *)
Definition range_len (start stop step : Z) : Z :=
  if 0 <? step then
    if start <? stop then (stop - start - 1) / step + 1 else 0
  else
    if stop <? start then (start - stop - 1) / (- step) + 1 else 0.

Definition range_step (start stop step : Z) : list Z :=
  (fun k => start + k * step) <$> seqZ 0 (range_len start stop step).

(** [make_batches].  [%] on integers raises on a zero divisor and has the
    sign of the divisor, as [Z.modulo] has.  [floor(total_size / batch_size)]
    goes through a float: for [total_size + batch_size <= 2 ^ 52] the floor
    of the rounded quotient is the integer quotient, and the properties
    below are stated for such sizes. *)
Definition make_batches (total_size batch_size : Z) : pyerror + list py_range :=
  if batch_size =? 0 then inl ZeroDivisionError
  else
    let tail := total_size mod batch_size in
    let num_batches := total_size / batch_size in
    let batches :=
      (fun i => {| start := i; stop := i + batch_size |})
        <$> range_step 0 (batch_size * num_batches) batch_size in
    inr (if negb (tail =? 0) then
           batches ++ [{| start := batch_size * num_batches;
                          stop := batch_size * num_batches + tail |}]
         else batches).

(** A metric, as far as the code at hand reads it: [batch_size] and, in
    [ragas/validation.py], [evaluation_mode].  [ragas/validation.py] takes
    [EvaluationMode] from this module, where the code at hand does not
    define it: its members are the keys of [EVALMODE_TO_COLUMNS]. *)
Inductive EvaluationMode : Type := qac | qa | qc | ga.

Record Metric : Type := {
  batch_size : Z;
  evaluation_mode : EvaluationMode
}.

Definition get_batches (self : Metric) (dataset_size : Z) : pyerror + list py_range :=
  make_batches dataset_size (batch_size self).

End Metrics.

(** ** Dataset validation: [ragas/validation.py] *)

Module Validation.
Import Metrics.

(** The features of a dataset column, as far as the checks read them: a
    [Value] with its dtype, or a [Sequence] of a feature, whose own [dtype]
    is ["list"].  Other feature classes of the [datasets] library are not
    modelled. *)
Inductive feature : Type :=
| Value (dtype : string)
| Sequence (inner : feature).

Definition dtype (f : feature) : string :=
  match f with
  | Value d => d
  | Sequence _ => "list"
  end.

Definition should_be_string (column_names : string) : pyerror :=
  ValueError ("Dataset feature " +:+ dquote +:+ column_names +:+ dquote
              +:+ " should be of type string").

Definition should_be_sequence (column_names : string) : pyerror :=
  ValueError ("Dataset feature " +:+ dquote +:+ column_names +:+ dquote
              +:+ " should be of type Sequence[string]").

(** [isinstance(f, Sequence) and f.feature.dtype == "string"] *)
Definition is_string_sequence (f : feature) : bool :=
  match f with
  | Sequence inner => String.eqb (dtype inner) "string"
  | Value _ => false
  end.

(** One of the two loops of [validate_column_dtypes]: the columns that are
    there are checked in turn, and the first that fails raises. *)
Fixpoint check_columns (check : feature -> bool) (error : string -> pyerror)
    (columns : list string) (features : gmap string feature) : pyerror + unit :=
  match columns with
  | [] => inr tt
  | column_names :: rest =>
      match features !! column_names with
      | Some f =>
          if check f then check_columns check error rest features
          else inl (error column_names)
      | None => check_columns check error rest features
      end
  end.

Definition validate_column_dtypes (features : gmap string feature) : pyerror + unit :=
  match check_columns (fun f => String.eqb (dtype f) "string") should_be_string
          ["question"; "answer"] features with
  | inl e => inl e
  | inr _ =>
      check_columns is_string_sequence should_be_sequence
        ["contexts"; "ground_truths"] features
  end.

Definition EVALMODE_TO_COLUMNS (m : EvaluationMode) : list string :=
  match m with
  | qac => ["question"; "answer"; "contexts"]
  | qa => ["question"; "answer"]
  | qc => ["question"; "contexts"]
  | ga => ["ground_truths"; "answer"]
  end.

(** The message of [validate_evaluation_modes]: its second half is not an
    f-string, so the braces stand in it as they are. *)
Definition columns_message : string :=
  "Dataset should have the following additional columns "
  +:+ "{required_columns - available_columns} for the metrics you are using.".

Definition validate_evaluation_modes (features : gmap string feature)
    (metrics : list Metric) : pyerror + unit :=
  let required_columns : gset string :=
    foldl (fun acc m => acc ∪ list_to_set (EVALMODE_TO_COLUMNS (evaluation_mode m)))
      ∅ metrics in
  let available_columns : gset string := dom features in
  if bool_decide (required_columns ≠ available_columns)
  then inl (ValueError columns_message)
  else inr tt.

End Validation.

(** ** Samples: [ragas/dataset_schema.py] *)

Module DatasetSchema.
Import Cache.

(** The messages of [ragas.messages], which is not among the sources at
    hand, as far as [validate_messages] reads them: the class of a message
    and the [tool_calls] of an [AIMessage]. *)
Inductive message : Type :=
| HumanMessage (content : string)
| AIMessage (content : string) (tool_calls : option (list string))
| ToolMessage (content : string).

(** The loop of [validate_messages], with [prev_message]. *)
Fixpoint check_tool_messages (text_of : message -> string)
    (prev_message : option message) (messages : list message) : pyerror + unit :=
  match messages with
  | [] => inr tt
  | m :: rest =>
      match m with
      | ToolMessage _ =>
          match prev_message with
          | Some (AIMessage content tool_calls) =>
              match tool_calls with
              | None =>
                  inl (ValueError
                         ("ToolMessage instances must be preceded by an AIMessage instance with tool_calls. Got "
                          +:+ text_of (AIMessage content tool_calls)))
              | Some _ => check_tool_messages text_of (Some m) rest
              end
          | _ =>
              inl (ValueError
                     "ToolMessage instances must be preceded by an AIMessage instance.")
          end
      | _ => check_tool_messages text_of (Some m) rest
      end
  end.

(** [MultiTurnSample.validate_messages].  The first test is [not] of a
    generator expression, and a generator object is true whatever it would
    yield: that test never raises.  [text_of] is the text an f-string gives
    for a message, in the second error. *)
Definition validate_messages (text_of : message -> string) (messages : list message)
  : pyerror + list message :=
  let generator_is_true := true in
  if negb generator_is_true then
    inl (ValueError
           "All inputs must be instances of HumanMessage, AIMessage, or ToolMessage.")
  else
    match check_tool_messages text_of None messages with
    | inl e => inl e
    | inr _ => inr messages
    end.

(** [SingleTurnSample.dict]: the method calls itself, [self.dict()], before
    it drops the fields that are [None].  [fuel] bounds the depth of the
    calls, as the recursion limit of the interpreter does: where it runs out
    the call has not returned ([Diverge]; Python raises [RecursionError]
    there). *)
Fixpoint SingleTurnSample_dict (fuel : nat) (self : list (string * pyval))
  : outcome (list (string * pyval)) :=
  match fuel with
  | O => Diverge
  | S fuel' =>
      match SingleTurnSample_dict fuel' self with
      | Return row =>
          Return (List.filter
                    (fun kv => match kv.2 with PNone => false | _ => true end) row)
      | Raise e => Raise e
      | Diverge => Diverge
      end
  end.

End DatasetSchema.

(** ** String prompts: [StringPrompt] of [ragas/prompt/base.py] *)

Module StringPrompts.
Import Prompt.

(** [agenerate_text] of the model client, the method [StringPrompt] calls. *)
Class TextLLM (L : Type) : Type := {
  llm_agenerate_text :
    string -> gen_options -> L -> (exn + list (list string)) * L
}.

Section StringPrompt.

Context {L : Type} `{TextLLM L}.

(** [await llm.agenerate_text(prompt_value, n=.., ...)], logged as a model
    call. *)
Definition call_text_llm (prompt_value : PromptValue) (o : gen_options)
  : M (pstate L) (list (list string)) :=
  fun s =>
    let '(r, l') := llm_agenerate_text (prompt_str prompt_value) o (llm s) in
    let s' := {| llm := l'; calls := calls s ++ [(prompt_str prompt_value, o)] |} in
    match r with
    | inl e => (Raise e, s')
    | inr resp => (Return resp, s')
    end.

(** [StringPrompt.generate] *)
Definition StringPrompt_generate (data : string) (temperature : option Q)
    (stop : option (list string)) (callbacks : list string)
  : M (pstate L) string :=
  llm_result <- call_text_llm {| prompt_str := data |}
                  {| n := 1; temperature := temperature; stop := stop;
                     callbacks := callbacks |} ;;
  generation_text llm_result 0.

(** The list comprehension of [StringPrompt.generate_multiple], over the
    turns of [range(n)] still to do. *)
Fixpoint StringPrompt_generate_each (turns : nat) (data : string)
    (temperature : option Q) (stop : option (list string))
    (callbacks : list string) : M (pstate L) (list string) :=
  match turns with
  | O => ret []
  | S turns' =>
      x <- StringPrompt_generate data temperature stop callbacks ;;
      xs <- StringPrompt_generate_each turns' data temperature stop callbacks ;;
      ret (x :: xs)
  end.

Definition StringPrompt_generate_multiple (data : string) (n : Z)
    (temperature : option Q) (stop : option (list string))
    (callbacks : list string) : M (pstate L) (list string) :=
  StringPrompt_generate_each (Z.to_nat n) data temperature stop callbacks.

(** A text client that answers every call with at least one generation. *)
Definition text_responsive : Prop :=
  forall p o l, exists t g rest l',
    llm_agenerate_text p o l = (inr ((t :: g) :: rest), l').

End StringPrompt.

End StringPrompts.

(** ** More concrete collaborators *)

Module MoreFixtures.
Import Prompt StringPrompts Fixtures.

(** A client whose answers hold no generation, and text clients that give
    the same text, or raise, on every call. *)
Definition answers_nothing : BaseRagasLLM unit :=
  {| llm_generate := fun _ _ l => (inr [], l) |}.

Definition text_always_answers (t : string) : TextLLM unit :=
  {| llm_agenerate_text := fun _ _ l => (inr [[t]], l) |}.

Definition text_always_fails (e : exn) : TextLLM unit :=
  {| llm_agenerate_text := fun _ _ l => (inl e, l) |}.

Definition plain_options : gen_options :=
  {| n := 1; temperature := None; stop := None; callbacks := [] |}.

End MoreFixtures.

(** ** Notions used to state more properties of the cache *)

Module CacheNotions.
Import Cache.

(** The number of calls of the wrapped callable in a log. *)
Definition is_call (ev : event) : bool :=
  match ev with
  | EvCall _ _ => true
  | _ => false
  end.

Definition invocations (log : list event) : nat :=
  length (List.filter is_call log).


(** The kind of a hashable value, as far as [<] goes: values of two kinds
    have no order. *)
Definition kind (h : hval) : nat :=
  match h with
  | HNone => 0
  | HBool _ | HInt _ => 1
  | HStr _ => 2
  | HTuple _ => 3
  end.


(** A hexadecimal digit in lower case. *)
Definition is_hex_digit (c : ascii) : bool :=
  let k := N_of_ascii c in
  ((48 <=? k) && (k <=? 57) || (97 <=? k) && (k <=? 102))%N.

Fixpoint all_hex (s : string) : bool :=
  match s with
  | EmptyString => true
  | String c r => is_hex_digit c && all_hex r
  end.

End CacheNotions.

(** * Properties *)

(** The digest on the test vectors of the standard. *)
Example sha256_constants :
  length SHA256.K256 = 64%nat /\ length SHA256.H256 = 8%nat
  /\ head SHA256.K256 = Some 0x428a2f98 /\ last SHA256.K256 = Some 0xc67178f2
  /\ head SHA256.H256 = Some 0x6a09e667 /\ last SHA256.H256 = Some 0x5be0cd19.
Proof. repeat split. Qed.

Example sha256_abc :
  SHA256.hexdigest "abc"
  = "ba7816bf8f01cfea414140de5dae2223b00361a396177a9cb410ff61f20015ad".
Proof. vm_compute. reflexivity. Qed.

Example sha256_empty :
  SHA256.hexdigest ""
  = "e3b0c44298fc1c149afbf4c8996fb92427ae41e4649b934ca495991b7852b855".
Proof. vm_compute. reflexivity. Qed.

(** How [bind] runs, by the outcome of its first part. *)
Lemma bind_Return {S A B} (c : M S A) (k : A -> M S B) s a s' :
  c s = (Return a, s') -> bind c k s = k a s'.
Proof. unfold bind. now intros ->. Qed.

Lemma bind_Raise {S A B} (c : M S A) (k : A -> M S B) s e s' :
  c s = (Raise e, s') -> bind c k s = (Raise e, s').
Proof. unfold bind. now intros ->. Qed.

Lemma bind_Diverge {S A B} (c : M S A) (k : A -> M S B) s s' :
  c s = (Diverge, s') -> bind c k s = (Diverge, s').
Proof. unfold bind. now intros ->. Qed.


Module PromptFacts.
Import Prompt.

Section InvokerFacts.

Context {L Model Obj : Type} `{BaseRagasLLM L} `{Pydantic Model Obj}.

Local Abbreviation pstate := (Prompt.pstate L).
Local Abbreviation PydanticPrompt := (Prompt.PydanticPrompt Model Obj).

Lemma call_llm_ok pv o s resp l' :
  llm_generate (prompt_str pv) o (llm s) = (inr resp, l') ->
  call_llm pv o s
  = (Return resp, {| llm := l'; calls := calls s ++ [(prompt_str pv, o)] |}).
Proof. unfold call_llm. now intros ->. Qed.

Lemma call_llm_fails pv o s e l' :
  llm_generate (prompt_str pv) o (llm s) = (inl e, l') ->
  call_llm pv o s
  = (Raise e, {| llm := l'; calls := calls s ++ [(prompt_str pv, o)] |}).
Proof. unfold call_llm. now intros ->. Qed.

(** The two functions, one level unfolded. *)
Lemma parse_output_string_S fuel m txt (pv : PromptValue) mr :
  parse_output_string (L := L) (S fuel) m txt pv mr
  = match parse m txt with
    | Some result => ret result
    | None =>
        if negb (mr =? 0) then
          result <- generate fuel fix_output_format_prompt
                      (OutputStringAndPrompt txt (PromptValue_to_string pv))
                      None None [] ;;
          parse_output_string fuel m (text result) pv (mr - 1)
        else raise (RagasOutputParserException mr)
    end.
Proof. reflexivity. Qed.

Lemma generate_S fuel (self : PydanticPrompt) data tmp st cb :
  generate (L := L) (S fuel) self data tmp st cb
  = (resp <- call_llm {| prompt_str := to_string self (process_input self data) |}
               {| n := 1; temperature := tmp; stop := st; callbacks := cb |} ;;
     output_string <- generation_text resp 0 ;;
     answer <- parse_output_string fuel (output_model self) output_string
                 {| prompt_str := to_string self (process_input self data) |} 3 ;;
     ret (process_output self answer data)).
Proof. reflexivity. Qed.

(** One level of [generate] with a responsive client: exactly one model call,
    then the parse of its first generation with a budget of 3. *)
Lemma generate_step fuel self data tmp st cb s :
  responsive ->
  exists txt s1,
    calls s1 = calls s ++ [(to_string self data,
                            {| n := 1; temperature := tmp; stop := st;
                               callbacks := cb |})]
    /\ generate (S fuel) self data tmp st cb s
       = bind (parse_output_string fuel (output_model self) txt
                 {| prompt_str := to_string self data |} 3)
              (fun answer => ret (process_output self answer data)) s1.
Proof.
  intros Hr.
  destruct (Hr (to_string self data)
              {| n := 1; temperature := tmp; stop := st; callbacks := cb |}
              (llm s)) as (t & g & rest & l' & Hl).
  exists t, {| llm := l';
               calls := calls s ++ [(to_string self data,
                  {| n := 1; temperature := tmp; stop := st; callbacks := cb |})] |}.
  split; [reflexivity|].
  rewrite generate_S. unfold process_input.
  erewrite bind_Return; [|apply call_llm_ok; exact Hl].
  reflexivity.
Qed.

(** More fuel never changes a result that was reached. *)
Lemma fuel_mono_S fuel :
  (forall m txt pv mr s r s',
      parse_output_string fuel m txt pv mr s = (r, s') -> r <> Diverge ->
      parse_output_string (S fuel) m txt pv mr s = (r, s'))
  /\ (forall self data tmp st cb s r s',
      generate fuel self data tmp st cb s = (r, s') -> r <> Diverge ->
      generate (S fuel) self data tmp st cb s = (r, s')).
Proof.
  induction fuel as [|fuel [IHp IHg]].
  - split; intros; cbn in *; unfold diverge in *; congruence.
  - split.
    + intros m txt pv mr s r s' Hrun Hnd.
      rewrite parse_output_string_S in Hrun.
      rewrite (parse_output_string_S (S fuel)).
      destruct (parse m txt); [exact Hrun|].
      destruct (negb (mr =? 0)); [|exact Hrun].
      unfold bind in Hrun |- *.
      destruct (generate fuel _ _ _ _ _ s) as [[a|e|] s1] eqn:Hg.
      * rewrite (IHg _ _ _ _ _ _ _ _ Hg) by discriminate.
        now apply IHp.
      * rewrite (IHg _ _ _ _ _ _ _ _ Hg) by discriminate. exact Hrun.
      * congruence.
    + intros self data tmp st cb s r s' Hrun Hnd.
      rewrite generate_S in Hrun.
      rewrite (generate_S (S fuel)).
      unfold bind in Hrun |- *.
      destruct (call_llm _ _ s) as [[resp|e|] s1]; try exact Hrun.
      destruct (generation_text resp 0 s1) as [[os|e|] s2]; try exact Hrun.
      destruct (parse_output_string fuel _ _ _ _ s2) as [[a|e|] s3] eqn:Hp.
      * rewrite (IHp _ _ _ _ _ _ _ Hp) by discriminate. exact Hrun.
      * rewrite (IHp _ _ _ _ _ _ _ Hp) by discriminate. exact Hrun.
      * congruence.
Qed.

Lemma parse_output_string_mono fuel fuel' m txt pv mr s r s' :
  (fuel <= fuel')%nat ->
  parse_output_string fuel m txt pv mr s = (r, s') -> r <> Diverge ->
  parse_output_string fuel' m txt pv mr s = (r, s').
Proof.
  induction 1 as [|k _ IH]; [tauto|].
  intros Hrun Hnd. apply fuel_mono_S; auto.
Qed.

Lemma generate_mono fuel fuel' self data tmp st cb s r s' :
  (fuel <= fuel')%nat ->
  generate fuel self data tmp st cb s = (r, s') -> r <> Diverge ->
  generate fuel' self data tmp st cb s = (r, s').
Proof.
  induction 1 as [|k _ IH]; [tauto|].
  intros Hrun Hnd. apply fuel_mono_S; auto.
Qed.

(** When the repair prompt's own output never parses, neither function comes
    back, whatever the bound: a parse that fails with a non-zero budget runs
    into the bound after [fuel / 2] model calls, and so does a [generate] of
    the repair prompt after [(fuel + 1) / 2]. *)
Lemma repair_never_parses_diverges :
  responsive ->
  (forall txt, parse StringIO txt = None) ->
  forall fuel,
    (forall m txt pv mr s,
        parse m txt = None -> mr <> 0 ->
        exists s', parse_output_string fuel m txt pv mr s = (Diverge, s')
                   /\ length (calls s') = (length (calls s) + fuel / 2)%nat)
    /\ (forall self data tmp st cb s,
        output_model self = StringIO ->
        exists s', generate fuel self data tmp st cb s = (Diverge, s')
                   /\ length (calls s') = (length (calls s) + (fuel + 1) / 2)%nat).
Proof.
  intros Hr Hsio.
  induction fuel as [|fuel [IHp IHg]].
  - split; intros; eexists; (split; [reflexivity|]); cbn; lia.
  - split.
    + intros m txt pv mr s Hm Hmr.
      destruct (IHg fix_output_format_prompt
                  (OutputStringAndPrompt txt (PromptValue_to_string pv))
                  None None [] s eq_refl) as (s' & Hg & Hc).
      exists s'. split.
      * rewrite parse_output_string_S, Hm.
        destruct (Z.eqb_spec mr 0) as [|_]; [contradiction|]. cbn [negb].
        now apply bind_Diverge.
      * rewrite Hc. replace (S fuel) with (fuel + 1)%nat by lia. reflexivity.
    + intros self data tmp st cb s Hout.
      destruct (generate_step fuel self data tmp st cb s Hr) as (t & s1 & Hc1 & ->).
      destruct (IHp (output_model self) t {| prompt_str := to_string self data |}
                  3 s1) as (s' & Hp & Hc); [rewrite Hout; apply Hsio|lia|].
      exists s'. split; [now apply bind_Diverge|].
      rewrite Hc, Hc1, length_app. cbn [length].
      replace (S fuel + 1)%nat with (fuel + 1 * 2)%nat by lia.
      rewrite Nat.div_add by lia. lia.
Qed.

(** When the repair prompt's own output parses at once, a repair is one model
    call and returns the parsed [StringIO]. *)
Lemma repair_returns fuel data s :
  responsive ->
  (forall txt, is_Some (parse StringIO txt)) ->
  exists r s',
    generate (S (S fuel)) fix_output_format_prompt data None None [] s
    = (Return r, s')
    /\ length (calls s') = S (length (calls s)).
Proof.
  intros Hr Hsio.
  destruct (generate_step (S fuel) fix_output_format_prompt data None None [] s Hr)
    as (t & s1 & Hc1 & ->).
  destruct (Hsio t) as [r Hp].
  exists r, s1. split.
  - unfold bind. rewrite parse_output_string_S.
    cbn [fix_output_format_prompt output_model]. rewrite Hp. reflexivity.
  - rewrite Hc1, length_app. cbn. lia.
Qed.

(** The repair loop against a target decoder that refuses every text, with
    repairs that parse at once: a budget of [N] is spent in [N] model calls
    and the terminal error is raised. *)
Lemma exhausts_budget m :
  responsive ->
  (forall txt, parse m txt = None) ->
  (forall txt, is_Some (parse StringIO txt)) ->
  forall (N fuel : nat) txt pv s,
    (N + 2 <= fuel)%nat ->
    exists s',
      parse_output_string fuel m txt pv (Z.of_nat N) s
      = (Raise (RagasOutputParserException 0), s')
      /\ length (calls s') = (length (calls s) + N)%nat.
Proof.
  intros Hr Hm Hsio.
  induction N as [|N IH]; intros fuel txt pv s Hfuel.
  - destruct fuel as [|fuel]; [lia|].
    exists s. split; [|lia].
    rewrite parse_output_string_S, Hm. reflexivity.
  - destruct fuel as [|[|[|fuel]]]; try lia.
    destruct (repair_returns fuel
                (OutputStringAndPrompt txt (PromptValue_to_string pv)) s Hr Hsio)
      as (r & s1 & Hg & Hc1).
    destruct (IH (S (S fuel)) (text r) pv s1) as (s' & Hp & Hc); [lia|].
    exists s'. split; [|lia].
    rewrite (parse_output_string_S (S (S fuel))).
    rewrite Hm.
    destruct (Z.eqb_spec (Z.of_nat (S N)) 0) as [|_]; [lia|]. cbn [negb].
    erewrite bind_Return by exact Hg.
    replace (Z.of_nat (S N) - 1) with (Z.of_nat N) by lia.
    exact Hp.
Qed.

(** The loop of [generate_multiple] over a range split in two. *)
Lemma generate_multiple_loop_app fuel self data pv resp r1 r2 acc s :
  generate_multiple_loop fuel self data pv resp (r1 ++ r2) acc s
  = bind (generate_multiple_loop fuel self data pv resp r1 acc)
         (generate_multiple_loop fuel self data pv resp r2) s.
Proof.
  revert acc s. induction r1 as [|i r1 IH]; intros acc s; [reflexivity|].
  cbn [app generate_multiple_loop]. unfold bind.
  destruct (generation_text resp i s) as [[t|e|] s1]; try reflexivity.
  destruct (parse_output_string fuel _ t pv 3 s1) as [[a|e|] s2]; try reflexivity.
  rewrite IH. reflexivity.
Qed.

Lemma generation_text_ok resp g i t (s : pstate) :
  resp !! 0%nat = Some g -> g !! i = Some t ->
  generation_text resp i s = (Return t, s).
Proof. unfold generation_text. now intros -> ->. Qed.

Lemma model_calls_length (s s' : pstate) (k : nat) :
  length (calls s') = (length (calls s) + k)%nat -> model_calls s s' = Z.of_nat k.
Proof. unfold model_calls. lia. Qed.

(** With a responsive client the loop raises nothing but its own terminal
    error. *)
Lemma only_terminal_error :
  responsive ->
  forall fuel,
    (forall m txt pv mr (s : pstate) e s',
        parse_output_string fuel m txt pv mr s = (Raise e, s') ->
        exists k, e = RagasOutputParserException k)
    /\ (forall (self : PydanticPrompt) data tmp st cb (s : pstate) e s',
        generate fuel self data tmp st cb s = (Raise e, s') ->
        exists k, e = RagasOutputParserException k).
Proof.
  intros Hr. induction fuel as [|fuel [IHp IHg]].
  - split; intros; cbn in *; unfold diverge in *; congruence.
  - split.
    + intros m txt pv mr s e s' Hrun.
      rewrite parse_output_string_S in Hrun.
      destruct (parse m txt); [discriminate|].
      destruct (negb (mr =? 0)).
      * unfold bind in Hrun.
        destruct (generate fuel _ _ _ _ _ s) as [[a|e1|] s1] eqn:Hg.
        -- eapply IHp; exact Hrun.
        -- inversion Hrun; subst. eapply IHg; exact Hg.
        -- discriminate.
      * unfold raise in Hrun. inversion Hrun. eauto.
    + intros self data tmp st cb s e s' Hrun.
      destruct (generate_step fuel self data tmp st cb s Hr) as (t & s1 & _ & Heq).
      rewrite Heq in Hrun. unfold bind in Hrun.
      destruct (parse_output_string fuel _ _ _ _ s1) as [[a|e1|] s2] eqn:Hp.
      * discriminate.
      * inversion Hrun; subst. eapply IHp; exact Hp.
      * discriminate.
Qed.

(** When nothing parses, [generate] does not come back either. *)
Lemma generate_diverges (self : PydanticPrompt) :
  responsive ->
  (forall txt, parse StringIO txt = None) ->
  (forall txt, parse (output_model self) txt = None) ->
  forall fuel data tmp st cb (s : pstate),
  exists s', generate fuel self data tmp st cb s = (Diverge, s').
Proof.
  intros Hr Hsio Hm [|fuel] data tmp st cb s; [eexists; reflexivity|].
  destruct (generate_step fuel self data tmp st cb s Hr) as (t & s1 & _ & ->).
  destruct (repair_never_parses_diverges Hr Hsio fuel) as [Hp _].
  destruct (Hp (output_model self) t {| prompt_str := to_string self data |} 3 s1)
    as (s' & Hrun & _); [apply Hm|lia|].
  exists s'. now apply bind_Diverge.
Qed.

(** C1 (as amended): against a target decoder that refuses every text, and
    with repair calls whose own output parses at the first attempt, a parse
    with a retry budget of [N] makes exactly [N] repair calls and then raises
    [RagasOutputParserException]; [generate], whose budget is always 3, makes
    exactly 3 + 1 model calls and then raises it. *)
Theorem repair_bound (m : Model) :
  responsive ->
  (forall txt, parse m txt = None) ->
  (forall txt, is_Some (parse StringIO txt)) ->
  (forall (N fuel : nat) txt pv (s : pstate),
      (N + 2 <= fuel)%nat ->
      exists k s',
        parse_output_string fuel m txt pv (Z.of_nat N) s
        = (Raise (RagasOutputParserException k), s')
        /\ model_calls s s' = Z.of_nat N)
  /\ (forall fuel (self : PydanticPrompt) data tmp st cb (s : pstate),
      output_model self = m ->
      (6 <= fuel)%nat ->
      exists k s',
        generate fuel self data tmp st cb s
        = (Raise (RagasOutputParserException k), s')
        /\ model_calls s s' = 3 + 1).
Proof.
  intros Hr Hm Hsio. split.
  - intros N fuel txt pv s Hfuel.
    destruct (exhausts_budget m Hr Hm Hsio N fuel txt pv s Hfuel) as (s' & Hp & Hc).
    exists 0, s'. split; [exact Hp|]. now apply model_calls_length.
  - intros [|fuel] self data tmp st cb s Hout Hfuel; [lia|].
    destruct (generate_step fuel self data tmp st cb s Hr) as (t & s1 & Hc1 & ->).
    destruct (exhausts_budget m Hr Hm Hsio 3 fuel t
                {| prompt_str := to_string self data |} s1) as (s' & Hp & Hc); [lia|].
    exists 0, s'. split.
    + apply bind_Raise. rewrite Hout. exact Hp.
    + unfold model_calls. rewrite Hc, Hc1, length_app. cbn [length]. lia.
Qed.

(** C6 (as amended): when the budget is used up and the text still does not
    parse, [parse_output_string] raises [RagasOutputParserException] at once,
    without a model call; and with a responsive client this is the only error
    the loop raises.  The error holds one integer and no text. *)
Theorem exhaustion_error :
  (forall fuel m txt pv (s : pstate),
      parse m txt = None ->
      exists k,
        parse_output_string (S fuel) m txt pv 0 s
        = (Raise (RagasOutputParserException k), s))
  /\ (responsive ->
      forall fuel m txt pv mr (s : pstate) e s',
        parse_output_string fuel m txt pv mr s = (Raise e, s') ->
        exists k, e = RagasOutputParserException k).
Proof.
  split.
  - intros fuel m txt pv s Hm. exists 0.
    rewrite parse_output_string_S, Hm. reflexivity.
  - intros Hr fuel. apply (only_terminal_error Hr fuel).
Qed.

(** C7: an error of the model call goes out of [generate] as it is, with
    that one call as the only model call made: no repair call follows and no
    parse is tried.  The same holds for a repair call inside
    [parse_output_string], whatever budget is left. *)
Theorem invocation_failure_propagates :
  (forall fuel (self : PydanticPrompt) data tmp st cb (s : pstate) e l',
      llm_generate (to_string self data)
        {| n := 1; temperature := tmp; stop := st; callbacks := cb |} (llm s)
      = (inl e, l') ->
      generate (S fuel) self data tmp st cb s
      = (Raise e,
         {| llm := l';
            calls := calls s ++ [(to_string self data,
                       {| n := 1; temperature := tmp; stop := st;
                          callbacks := cb |})] |}))
  /\ (forall fuel m txt (pv : PromptValue) mr (s : pstate) e l',
      parse m txt = None -> mr <> 0 ->
      llm_generate
        (to_string fix_output_format_prompt
           (OutputStringAndPrompt txt (PromptValue_to_string pv)))
        {| n := 1; temperature := None; stop := None; callbacks := [] |} (llm s)
      = (inl e, l') ->
      exists s',
        parse_output_string (S (S fuel)) m txt pv mr s = (Raise e, s')
        /\ model_calls s s' = 1).
Proof.
  split.
  - intros fuel self data tmp st cb s e l' Hl.
    rewrite generate_S. unfold process_input.
    apply bind_Raise. now apply call_llm_fails.
  - intros fuel m txt pv mr s e l' Hm Hmr Hl.
    eexists. split.
    + rewrite parse_output_string_S, Hm.
      destruct (Z.eqb_spec mr 0) as [|_]; [contradiction|]. cbn [negb].
      apply bind_Raise. rewrite generate_S. unfold process_input.
      apply bind_Raise. apply call_llm_fails. exact Hl.
    + unfold model_calls. cbn [calls]. rewrite length_app. cbn [length]. lia.
Qed.

(** C10: a repair is a [generate] of the repair prompt, which parses its own
    model output as a [StringIO] with a budget of 3 of its own.  So when no
    repair output ever parses, a parse that fails with a budget other than 0
    does not come back, whatever the bound on the depth: it runs into the
    bound after [fuel / 2] model calls.  A parse that does come back shows
    that some text parses as a [StringIO]. *)
Theorem repair_recursion_diverges :
  responsive ->
  (forall fuel data (s : pstate),
      exists txt s1,
        model_calls s s1 = 1
        /\ generate (S fuel) fix_output_format_prompt data None None [] s
           = bind (parse_output_string fuel StringIO txt
                     {| prompt_str := to_string fix_output_format_prompt data |} 3)
                  (fun answer => ret answer) s1)
  /\ ((forall txt, parse StringIO txt = None) ->
      forall fuel m txt pv mr (s : pstate),
        parse m txt = None -> mr <> 0 ->
        exists s',
          parse_output_string fuel m txt pv mr s = (Diverge, s')
          /\ model_calls s s' = Z.of_nat (fuel / 2))
  /\ (forall fuel m txt pv mr (s : pstate) r s',
        parse m txt = None -> mr <> 0 ->
        parse_output_string fuel m txt pv mr s = (r, s') -> r <> Diverge ->
        ~ (forall txt, parse StringIO txt = None)).
Proof.
  intros Hr. split; [|split].
  - intros fuel data s.
    destruct (generate_step fuel fix_output_format_prompt data None None [] s Hr)
      as (t & s1 & Hc1 & Heq).
    exists t, s1. split; [|exact Heq].
    unfold model_calls. rewrite Hc1, length_app. cbn [length]. lia.
  - intros Hsio fuel m txt pv mr s Hm Hmr.
    destruct (repair_never_parses_diverges Hr Hsio fuel) as [Hp _].
    destruct (Hp m txt pv mr s Hm Hmr) as (s' & Hrun & Hc).
    exists s'. split; [exact Hrun|]. now apply model_calls_length.
  - intros fuel m txt pv mr s r s' Hm Hmr Hrun Hnd Hsio.
    destruct (repair_never_parses_diverges Hr Hsio fuel) as [Hp _].
    destruct (Hp m txt pv mr s Hm Hmr) as (s2 & Hrun2 & _).
    congruence.
Qed.

(** C8 (as amended): the candidates are parsed one after the other, each
    with a budget of 3 of its own, whatever the candidates before it used.
    When the parse of candidate [j] raises, after the candidates before it
    were parsed, [generate_multiple] raises that error: the candidates after
    [j] are not parsed and no output is returned.  When it returns, its answer
    is appended and the loop goes on. *)
Theorem generate_multiple_candidates fuel (self : PydanticPrompt) data k tmp st cb
    (s s0 s1 : pstate) resp l' g j txt outs :
  llm_generate (to_string self data)
    {| n := k; temperature := tmp; stop := st; callbacks := cb |} (llm s)
  = (inr resp, l') ->
  s0 = {| llm := l';
          calls := calls s ++ [(to_string self data,
                     {| n := k; temperature := tmp; stop := st;
                        callbacks := cb |})] |} ->
  resp !! 0%nat = Some g -> g !! j = Some txt -> (j < Z.to_nat k)%nat ->
  generate_multiple_loop fuel self data {| prompt_str := to_string self data |}
    resp (seq 0 j) [] s0 = (Return outs, s1) ->
  (forall e s2,
      parse_output_string fuel (output_model self) txt
        {| prompt_str := to_string self data |} 3 s1 = (Raise e, s2) ->
      generate_multiple (S fuel) self data k tmp st cb s = (Raise e, s2))
  /\ (forall a s2,
      parse_output_string fuel (output_model self) txt
        {| prompt_str := to_string self data |} 3 s1 = (Return a, s2) ->
      generate_multiple_loop fuel self data {| prompt_str := to_string self data |}
        resp (seq 0 (S j)) [] s0 = (Return (outs ++ [a]), s2)).
Proof.
  intros Hl -> Hg Hj Hlt Hpre.
  assert (Hone : forall rest,
    generate_multiple_loop fuel self data {| prompt_str := to_string self data |}
      resp (seq 0 j ++ j :: rest) []
      {| llm := l';
         calls := calls s ++ [(to_string self data,
                    {| n := k; temperature := tmp; stop := st;
                       callbacks := cb |})] |}
    = bind (parse_output_string fuel (output_model self) txt
              {| prompt_str := to_string self data |} 3)
        (fun answer =>
           generate_multiple_loop fuel self data
             {| prompt_str := to_string self data |} resp rest
             (outs ++ [process_output self answer data])) s1).
  { intros rest. rewrite generate_multiple_loop_app.
    erewrite bind_Return by exact Hpre.
    cbn [generate_multiple_loop].
    erewrite bind_Return by (eapply generation_text_ok; eassumption).
    reflexivity. }
  split.
  - intros e s2 Hp.
    unfold generate_multiple, process_input.
    erewrite bind_Return by (apply call_llm_ok; exact Hl).
    replace (seq 0 (Z.to_nat k))
      with (seq 0 j ++ j :: seq (S j) (Z.to_nat k - S j)).
    + rewrite Hone. now apply bind_Raise.
    + replace (Z.to_nat k) with (j + S (Z.to_nat k - S j))%nat at 2 by lia.
      rewrite seq_app. reflexivity.
  - intros a s2 Hp.
    replace (seq 0 (S j)) with (seq 0 j ++ [j]).
    + rewrite Hone. erewrite bind_Return by exact Hp. reflexivity.
    + replace (S j) with (j + 1)%nat by lia. rewrite seq_app. reflexivity.
Qed.

End InvokerFacts.

(** *** The claims on concrete collaborators *)

Import Fixtures.

Lemma always_answers_responsive t :
  @responsive unit (always_answers t).
Proof. intros p o l. exists t, [], [], l. reflexivity. Defined.

Lemma repair_bound_witness :
  exists k s',
    @generate unit model string (always_answers "oops") repairs_parse
      6 answer_prompt "q" None None [] start
    = (Raise (RagasOutputParserException k), s')
    /\ model_calls start s' = 3 + 1.
Proof.
  apply (proj2 (@repair_bound unit model string (always_answers "oops")
                  repairs_parse M_Answer (always_answers_responsive "oops")
                  (fun _ => eq_refl) (fun t => ex_intro _ t eq_refl))
           6%nat answer_prompt "q" None None [] start eq_refl).
  lia.
Defined.

(** C1 as stated fails on the code.  When the decoder refuses every text it is
    given, [generate] never raises the terminal error, for no bound on the
    recursion; and when only the target decoder refuses, the number of model
    calls is 4, the budget being fixed in [generate] and not an input. *)
Lemma repair_bound_counterexample :
  (~ exists fuel k s',
       @generate unit model string (always_answers "oops") never_parses
         fuel answer_prompt "q" None None [] start
       = (Raise (RagasOutputParserException k), s'))
  /\ (exists s',
       @generate unit model string (always_answers "oops") repairs_parse
         6 answer_prompt "q" None None [] start
       = (Raise (RagasOutputParserException 0), s')
       /\ model_calls start s' = 4).
Proof.
  split.
  - intros (fuel & k & s' & Hrun).
    destruct (@generate_diverges unit model string (always_answers "oops")
                never_parses answer_prompt (always_answers_responsive "oops")
                (fun _ => eq_refl) (fun _ => eq_refl)
                fuel "q" None None [] start) as (s2 & Hd).
    congruence.
  - eexists. split; vm_compute; reflexivity.
Qed.

Lemma exhaustion_error_witness :
  exists k,
    @parse_output_string unit model string (always_answers "oops") repairs_parse
      1 M_Answer "oops" question 0 start
    = (Raise (RagasOutputParserException k), start).
Proof.
  apply (proj1 (@exhaustion_error unit model string (always_answers "oops")
                  repairs_parse) 0%nat M_Answer "oops" question start eq_refl).
Defined.

(** C6 as stated fails on the code.  With a budget of 3 and three repair
    calls made, the error says 0; and the runs on the texts [x] and [y] raise
    the same error, so the error does not tell the last text. *)
Lemma exhaustion_error_counterexample :
  (repair_run "x").1 = Raise (RagasOutputParserException 0)
  /\ model_calls start (repair_run "x").2 = 3
  /\ (repair_run "y").1 = (repair_run "x").1.
Proof. repeat split; vm_compute; reflexivity. Qed.

Lemma invocation_failure_witness :
  @generate unit model string (always_fails (OtherError "timeout")) good_parses
    1 answer_prompt "q" None None [] start
  = (Raise (OtherError "timeout"),
     {| llm := tt;
        calls := [(@to_string model string good_parses answer_prompt "q",
                   {| n := 1; temperature := None; stop := None;
                      callbacks := [] |})] |}).
Proof.
  apply (proj1 (@invocation_failure_propagates unit model string
                  (always_fails (OtherError "timeout")) good_parses)
           0%nat answer_prompt "q" None None [] start (OtherError "timeout") tt
           eq_refl).
Defined.

Lemma repair_recursion_witness :
  exists s',
    @parse_output_string unit model string (always_answers "oops") never_parses
      100 M_Answer "oops" question 3 start = (Diverge, s')
    /\ model_calls start s' = Z.of_nat (100 / 2).
Proof.
  apply (proj1 (proj2 (@repair_recursion_diverges unit model string
                         (always_answers "oops") never_parses
                         (always_answers_responsive "oops")))
           (fun _ => eq_refl) 100%nat M_Answer "oops" question 3 start eq_refl).
  lia.
Defined.

Lemma generate_multiple_witness :
  (two_candidates_run "bad" "good").1 = Raise (RagasOutputParserException 0).
Proof.
  unfold two_candidates_run.
  erewrite (proj1 (@generate_multiple_candidates unit model string
                     (two_candidates "bad" "good") good_parses
                     9 answer_prompt "q" 2 None None [] start _ _
                     [["bad"; "good"]] tt ["bad"; "good"] 0%nat "bad" []
                     eq_refl eq_refl eq_refl eq_refl _ eq_refl)).
  - reflexivity.
  - vm_compute. reflexivity.
  Unshelve. cbn. lia.
Defined.

(** C8 as stated fails on the code.  Of two candidates, one that cannot be
    repaired and one that parses as it is, the call raises the error of the
    first, in either order, and the answer of the other is not returned. *)
Lemma generate_multiple_counterexample :
  (two_candidates_run "bad" "good").1 = Raise (RagasOutputParserException 0)
  /\ (two_candidates_run "good" "bad").1 = Raise (RagasOutputParserException 0)
  /\ @parse model string good_parses M_Answer "good" = Some "good".
Proof. repeat split; vm_compute; reflexivity. Qed.

End PromptFacts.

Module CacheFacts.
Import Cache Fixtures.

(** *** The order of strings *)

Lemma ltb_trans (a b c : string) :
  String.ltb a b = true -> String.ltb b c = true -> String.ltb a c = true.
Proof.
  unfold String.ltb. intros Hab Hbc.
  destruct (String.compare a b) eqn:Eab; try discriminate.
  destruct (String.compare b c) eqn:Ebc; try discriminate.
  apply String_as_OT.cmp_lt in Eab, Ebc.
  pose proof (String_as_OT.lt_trans _ _ _ Eab Ebc) as Hac.
  apply String_as_OT.cmp_lt in Hac. unfold String_as_OT.cmp in Hac.
  now rewrite Hac.
Qed.

Lemma ltb_asym (a b : string) :
  String.ltb a b = true -> String.ltb b a = true -> False.
Proof.
  unfold String.ltb. rewrite (String.compare_antisym b a).
  destruct (String.compare a b); cbn; discriminate.
Qed.

Lemma ltb_total (a b : string) :
  a <> b -> String.ltb a b = false -> String.ltb b a = true.
Proof.
  unfold String.ltb. rewrite (String.compare_antisym b a).
  destruct (String.compare a b) eqn:E; cbn; try discriminate; [|reflexivity].
  intros Hne _. apply String.compare_eq_iff in E. contradiction.
Qed.

(** *** Sorting the items of a mapping with string keys *)

(** Items with different keys are ordered by their keys: the values are not
    looked at. *)
Lemma py_lt_items x y :
  is_item x -> is_item y -> item_key x <> item_key y ->
  py_lt x y = Some (String.ltb (item_key x) (item_key y)).
Proof.
  intros (k1 & h1 & ->) (k2 & h2 & ->) Hne. cbn in Hne |- *.
  destruct (String.eqb_spec k1 k2); [contradiction|reflexivity].
Qed.

Lemma insert_sorted_items x l :
  is_item x -> Forall is_item l ->
  Forall (fun y => item_key y <> item_key x) l ->
  StronglySorted key_lt l ->
  exists l', insert_sorted x l = Some l'
             /\ l' ≡ₚ x :: l
             /\ StronglySorted key_lt l'.
Proof.
  intros Hx Hl Hne Hs. induction l as [|y r IH].
  - exists [x]. repeat split; [reflexivity|]. repeat constructor.
  - inversion Hl as [|? ? Hy Hr]; subst.
    inversion Hne as [|? ? Hyx Hrx]; subst.
    apply StronglySorted_inv in Hs as [Hsr Hyr].
    cbn [insert_sorted]. rewrite (py_lt_items y x Hy Hx Hyx). cbn.
    destruct (String.ltb (item_key y) (item_key x)) eqn:Hlt.
    + destruct (IH Hr Hrx Hsr) as (r' & -> & Hp & Hs'). cbn.
      exists (y :: r'). repeat split.
      * rewrite Hp. apply perm_swap.
      * constructor; [exact Hs'|].
        rewrite Hp. constructor; [exact Hlt|exact Hyr].
    + exists (x :: y :: r). repeat split; [reflexivity|].
      assert (Hxy : key_lt x y) by (apply ltb_total; auto).
      constructor; [constructor; assumption|].
      constructor; [exact Hxy|].
      eapply Forall_impl; [exact Hyr|].
      intros z Hz. unfold key_lt in *. eapply ltb_trans; eassumption.
Qed.

Lemma sorted_items l :
  Forall is_item l -> NoDup (map item_key l) ->
  exists l', sorted l = Some l' /\ l' ≡ₚ l /\ StronglySorted key_lt l'.
Proof.
  induction l as [|x r IH]; intros Hl Hnd.
  - exists []. repeat split; constructor.
  - inversion Hl as [|? ? Hx Hr]; subst.
    cbn [map] in Hnd. apply NoDup_cons in Hnd as [Hnotin Hnd].
    destruct (IH Hr Hnd) as (r' & Hsr & Hp & Hs).
    destruct (insert_sorted_items x r' Hx) as (l' & Hins & Hp' & Hs'); auto.
    + rewrite Hp. exact Hr.
    + rewrite Hp. apply Forall_forall. intros y Hy Heq.
      apply Hnotin. rewrite <- Heq. apply list_elem_of_fmap. eauto.
    + exists l'. repeat split; [|now rewrite Hp', Hp|exact Hs'].
      cbn [sorted]. rewrite Hsr. exact Hins.
Qed.

(** Two orders of the same items sort to the same list. *)
Lemma sorted_items_Permutation l1 l2 :
  Forall is_item l1 -> NoDup (map item_key l1) -> l1 ≡ₚ l2 ->
  sorted l1 = sorted l2 /\ is_Some (sorted l1).
Proof.
  intros Hl Hnd Hp.
  destruct (sorted_items l1 Hl Hnd) as (s1 & E1 & P1 & S1).
  destruct (sorted_items l2) as (s2 & E2 & P2 & S2).
  { now rewrite <- Hp. }
  { now rewrite <- Hp. }
  rewrite E1, E2. split; [|eauto]. f_equal.
  apply (StronglySorted_unique_strong key_lt); auto.
  - intros x y _ _ Hxy Hyx. destruct (ltb_asym _ _ Hxy Hyx).
  - now rewrite P1, P2.
Qed.

(** *** Canonical form of a mapping *)

Lemma _make_hashable_PDict items :
  _make_hashable (PDict items) = pairs ← dict_pairs items; HTuple <$> sorted pairs.
Proof. reflexivity. Qed.

Lemma same_elements_trans o1 o2 o3 :
  same_elements o1 o2 -> same_elements o2 o3 -> same_elements o1 o3.
Proof.
  destruct o1, o2, o3; cbn; try tauto. intros. etransitivity; eassumption.
Qed.

Lemma dict_pairs_Permutation l1 l2 :
  l1 ≡ₚ l2 -> same_elements (dict_pairs l1) (dict_pairs l2).
Proof.
  induction 1 as [|[k v] l1 l2 _ IH|[k1 v1] [k2 v2] l|l1 l2 l3 _ IH1 _ IH2].
  - cbn. constructor.
  - cbn [dict_pairs]. destruct (_make_hashable v); cbn.
    + destruct (dict_pairs l1), (dict_pairs l2); cbn in *; try tauto.
      now constructor.
    + destruct (dict_pairs l1), (dict_pairs l2); cbn in *; tauto.
  - cbn [dict_pairs].
    destruct (_make_hashable v1), (_make_hashable v2), (dict_pairs l);
      cbn; try tauto. apply perm_swap.
  - eapply same_elements_trans; eassumption.
Qed.

Lemma dict_pairs_items (kw : list (string * pyval)) ps :
  dict_pairs (map (fun kv => (HStr kv.1, kv.2)) kw) = Some ps ->
  Forall is_item ps /\ map item_key ps = map fst kw.
Proof.
  revert ps. induction kw as [|[k v] r IH]; intros ps.
  - cbn. intros [= <-]. split; constructor.
  - cbn [map dict_pairs fst snd].
    destruct (_make_hashable v) as [h|]; [|discriminate]. cbn.
    destruct (dict_pairs _) as [ps'|]; [|discriminate]. cbn.
    intros [= <-]. destruct (IH ps' eq_refl) as [Hf Hk]. split.
    + constructor; [now exists k, h|exact Hf].
    + cbn. now rewrite Hk.
Qed.

(** A mapping with string keys has one canonical form, whatever the order
    its items were inserted in. *)
Lemma kwargs_dict_Permutation (kw1 kw2 : list (string * pyval)) :
  NoDup (map fst kw1) -> kw1 ≡ₚ kw2 ->
  _make_hashable (kwargs_dict kw1) = _make_hashable (kwargs_dict kw2).
Proof.
  intros Hnd Hp. unfold kwargs_dict. rewrite !_make_hashable_PDict.
  pose proof (dict_pairs_Permutation
                (map (fun kv : string * pyval => (HStr kv.1, kv.2)) kw1)
                (map (fun kv : string * pyval => (HStr kv.1, kv.2)) kw2)
                (Permutation_map _ Hp)) as Hsame.
  destruct (dict_pairs (map _ kw1)) as [p1|] eqn:E1,
           (dict_pairs (map _ kw2)) as [p2|] eqn:E2; cbn in Hsame; try tauto.
  destruct (dict_pairs_items kw1 p1 E1) as [Hf Hk]. cbn.
  destruct (sorted_items_Permutation p1 p2 Hf) as [-> _]; auto.
  now rewrite Hk.
Qed.

(** Induction on values, with the property at hand for the values inside. *)
Lemma hval_nested_ind (P : hval -> Prop) :
  P HNone -> (forall b, P (HBool b)) -> (forall z, P (HInt z)) ->
  (forall t, P (HStr t)) ->
  (forall l, Forall P l -> P (HTuple l)) ->
  forall h, P h.
Proof.
  intros HN HB HI HS HT. fix IH 1.
  intros [ |b|z|t|l]; [exact HN|apply HB|apply HI|apply HS|].
  apply HT.
  exact ((fix go (l : list hval) : Forall P l :=
            match l with
            | [] => List.Forall_nil _
            | x :: r => List.Forall_cons _ _ _ (IH x) (go r)
            end) l).
Qed.

Lemma pyval_nested_ind (P : pyval -> Prop) :
  P PNone -> (forall b, P (PBool b)) -> (forall z, P (PInt z)) ->
  (forall t, P (PStr t)) ->
  (forall l, Forall P l -> P (PTuple l)) ->
  (forall l, Forall P l -> P (PList l)) ->
  (forall items, Forall (fun kv => P kv.2) items -> P (PDict items)) ->
  (forall elems, P (PSet elems)) ->
  (forall fields, Forall (fun kv => P kv.2) fields -> P (PModel fields)) ->
  forall v, P v.
Proof.
  intros HN HB HI HS HT HL HD HE HM. fix IH 1.
  intros [ |b|z|t|l|l|items|elems|fields];
    [exact HN|apply HB|apply HI|apply HS| | | |apply HE|].
  - apply HT.
    exact ((fix go (l : list pyval) : Forall P l :=
              match l with
              | [] => List.Forall_nil _
              | x :: r => List.Forall_cons _ _ _ (IH x) (go r)
              end) l).
  - apply HL.
    exact ((fix go (l : list pyval) : Forall P l :=
              match l with
              | [] => List.Forall_nil _
              | x :: r => List.Forall_cons _ _ _ (IH x) (go r)
              end) l).
  - apply HD.
    exact ((fix go (l : list (hval * pyval)) : Forall (fun kv => P kv.2) l :=
              match l with
              | [] => List.Forall_nil _
              | x :: r => List.Forall_cons _ _ _ (IH x.2) (go r)
              end) items).
  - apply HM.
    exact ((fix go (l : list (string * pyval)) : Forall (fun kv => P kv.2) l :=
              match l with
              | [] => List.Forall_nil _
              | x :: r => List.Forall_cons _ _ _ (IH x.2) (go r)
              end) fields).
Qed.

(** A hashable value is its own canonical form. *)
Lemma _make_hashable_h_id h : _make_hashable_h h = h.
Proof.
  induction h as [ | | | |l IH] using hval_nested_ind; try reflexivity.
  cbn [_make_hashable_h]. f_equal.
  induction IH as [|x r Hx _ IHr]; [reflexivity|].
  cbn [map]. now rewrite Hx, IHr.
Qed.

Lemma _make_hashable_PTuple l :
  _make_hashable (PTuple l) = HTuple <$> tuple_items l.
Proof. reflexivity. Qed.

Lemma _make_hashable_PList l :
  _make_hashable (PList l) = HTuple <$> tuple_items l.
Proof. reflexivity. Qed.

(** A list and a tuple of the same elements have one canonical form. *)
Lemma _make_hashable_list_tuple l :
  _make_hashable (PList l) = _make_hashable (PTuple l).
Proof. reflexivity. Qed.

Lemma _make_hashable_PModel_pairs fields :
  _make_hashable (PModel fields)
  = pairs ← dict_pairs (map (fun kv => (HStr kv.1, kv.2)) fields);
    HTuple <$> sorted pairs.
Proof.
  change (_make_hashable (PModel fields))
    with (pairs ← (fix each (l : list (string * pyval)) : option (list hval) :=
                     match l with
                     | [] => Some []
                     | (k, v) :: r =>
                         h ← _make_hashable v; ps ← each r;
                         Some (HTuple [HStr k; h] :: ps)
                     end) fields;
          HTuple <$> sorted pairs).
  f_equal. induction fields as [|[k v] r IH]; [reflexivity|].
  cbn [map dict_pairs fst snd]. now rewrite IH.
Qed.

(** Dumping the models inside a value does not change its canonical form. *)
Lemma _make_hashable_model_dump_value v :
  _make_hashable (model_dump_value v) = _make_hashable v.
Proof.
  induction v as [ | | | |l IH|l IH|items IH|elems|fields IH]
    using pyval_nested_ind; try reflexivity.
  - cbn [model_dump_value]. rewrite !_make_hashable_PTuple. f_equal.
    induction IH as [|x r Hx _ IHr]; [reflexivity|].
    cbn [map tuple_items]. now rewrite Hx, IHr.
  - cbn [model_dump_value]. rewrite !_make_hashable_PList. f_equal.
    induction IH as [|x r Hx _ IHr]; [reflexivity|].
    cbn [map tuple_items]. now rewrite Hx, IHr.
  - cbn [model_dump_value]. rewrite !_make_hashable_PDict. f_equal.
    induction IH as [|[k x] r Hx _ IHr]; [reflexivity|].
    cbn [map dict_pairs fst snd] in *. now rewrite Hx, IHr.
  - cbn [model_dump_value].
    rewrite _make_hashable_PDict, _make_hashable_PModel_pairs. f_equal.
    induction IH as [|[k x] r Hx _ IHr]; [reflexivity|].
    cbn [map dict_pairs fst snd] in *. now rewrite Hx, IHr.
Qed.

(** The [BaseModel] case of the source: [_make_hashable(o.model_dump())]. *)
Lemma _make_hashable_model_dump fields :
  _make_hashable (PModel fields) = _make_hashable (model_dump fields).
Proof. unfold model_dump. now rewrite _make_hashable_model_dump_value. Qed.

(** The set case of the source, [sorted(_make_hashable(e) for e in o)], sorts
    the elements themselves. *)
Lemma _make_hashable_PSet elems :
  _make_hashable (PSet elems) = HTuple <$> sorted elems.
Proof.
  cbn [_make_hashable]. do 2 f_equal.
  induction elems as [|x r IH]; [reflexivity|].
  cbn [map]. now rewrite _make_hashable_h_id, IH.
Qed.


(** C2: two calls of the same callable whose positional and keyword
    arguments (without [callbacks] and [llm]) have the same canonical forms
    get the same cache key; so do two calls with the same positional
    arguments whose keyword arguments without [callbacks] and [llm] have the
    same items in any order, whatever their [callbacks] and [llm] are; a
    mapping with string keys has the same canonical form in any insertion
    order; and of the three inputs of the example the first two get one key
    and the third another. *)
Theorem cache_key_canonical :
  (forall W (func : pyfunc W) args1 args2 kwargs1 kwargs2,
      _make_hashable (PTuple (if ismethod func then tail args1 else args1))
      = _make_hashable (PTuple (if ismethod func then tail args2 else args2)) ->
      _make_hashable (kwargs_dict (filter_kwargs kwargs1))
      = _make_hashable (kwargs_dict (filter_kwargs kwargs2)) ->
      _generate_cache_key func args1 kwargs1 = _generate_cache_key func args2 kwargs2)
  /\ (forall W (func : pyfunc W) args kwargs1 kwargs2,
      NoDup (map fst (filter_kwargs kwargs1)) ->
      filter_kwargs kwargs1 ≡ₚ filter_kwargs kwargs2 ->
      _generate_cache_key func args kwargs1 = _generate_cache_key func args kwargs2)
  /\ (forall kw1 kw2 : list (string * pyval),
      NoDup (map fst kw1) -> kw1 ≡ₚ kw2 ->
      _make_hashable (kwargs_dict kw1) = _make_hashable (kwargs_dict kw2))
  /\ _generate_cache_key a_function [input_ab] []
     = Some "b826056211ca62b40bfae82fa1be0cfc0312eeaa277b0ce874530a32f3639f44"
  /\ _generate_cache_key a_function [input_ba] []
     = _generate_cache_key a_function [input_ab] []
  /\ _generate_cache_key a_function [input_ab_reversed_list] []
     <> _generate_cache_key a_function [input_ab] []
  /\ _generate_cache_key a_function [] [("data", input_ba); ("llm", PStr "gpt")]
     = _generate_cache_key a_function []
         [("callbacks", PList []); ("data", input_ab)].
Proof.
  split; [|split; [|split; [|split; [|split; [|split]]]]].
  - intros W func args1 args2 kwargs1 kwargs2 Hargs Hkw.
    unfold _generate_cache_key. cbv zeta. now rewrite Hargs, Hkw.
  - intros W func args kwargs1 kwargs2 Hnd Hp. unfold _generate_cache_key.
    now rewrite (kwargs_dict_Permutation _ _ Hnd Hp).
  - exact kwargs_dict_Permutation.
  - vm_compute. reflexivity.
  - vm_compute. reflexivity.
  - vm_compute. discriminate.
  - vm_compute. reflexivity.
Qed.

(** The canonical form does not tell a list from a tuple: a callable that
    does is not a function of the cache key. *)
Example key_of_list_is_key_of_tuple :
  _generate_cache_key a_function [PList [PInt 1; PInt 2]] []
  = _generate_cache_key a_function [PTuple [PInt 1; PInt 2]] [].
Proof. reflexivity. Qed.

Lemma cache_key_witness :
  _generate_cache_key a_function [PInt 7]
    [("b", PInt 2); ("llm", PStr "gpt"); ("a", PInt 1)]
  = _generate_cache_key a_function [PInt 7]
      [("callbacks", PNone); ("a", PInt 1); ("b", PInt 2)].
Proof.
  apply (proj1 (proj2 cache_key_canonical) unit a_function [PInt 7]
           [("b", PInt 2); ("llm", PStr "gpt"); ("a", PInt 1)]
           [("callbacks", PNone); ("a", PInt 1); ("b", PInt 2)]).
  - apply (bool_decide_unpack _). vm_compute. exact I.
  - cbn. apply perm_swap.
Defined.

(** *** The wrapper *)

Section Wrapper.

Context {B W : Type} `{CacheInterface B}.

Local Abbreviation cstate := (Cache.cstate B W).

Lemma decorator_sync (func : pyfunc W) args kwargs :
  decorator (B := B) func args kwargs = sync_wrapper func args kwargs.
Proof. unfold decorator. now destruct (iscoroutinefunction func). Qed.

Lemma call_func_run (func : pyfunc W) args kwargs (s : cstate) r w1 :
  body func args kwargs (world s) = (r, w1) ->
  call_func func args kwargs s
  = (outcome_of r,
     {| backend := backend s; world := w1; environ := environ s;
        trace := trace s ++ [EvCall args kwargs] |}).
Proof. unfold call_func. intros ->. now destruct r. Qed.

Lemma backend_op_run {A} ev (op : B -> (exn + A) * B) (s : cstate) r b1 :
  op (backend s) = (r, b1) ->
  backend_op ev op s
  = (outcome_of r,
     {| backend := b1; world := world s; environ := environ s;
        trace := trace s ++ [ev] |}).
Proof. unfold backend_op. intros ->. now destruct r. Qed.

Lemma wrapper_disabled (func : pyfunc W) args kwargs (s : cstate) :
  is_caching_enabled s = false ->
  decorator func args kwargs s = call_func func args kwargs s.
Proof. intros Hoff. rewrite decorator_sync. unfold sync_wrapper. now rewrite Hoff. Qed.

Lemma wrapper_enabled (func : pyfunc W) args kwargs (s : cstate) k :
  is_caching_enabled s = true ->
  _generate_cache_key func args kwargs = Some k ->
  decorator func args kwargs s
  = (present <- backend_has_key k ;;
     if present : bool then backend_get k
     else
       result <- call_func func args kwargs ;;
       _ <- backend_set k result ;;
       ret result) s.
Proof.
  intros Hon Hk. rewrite decorator_sync. unfold sync_wrapper, generate_cache_key.
  rewrite Hon, Hk. reflexivity.
Qed.

Lemma wrapper_unkeyable (func : pyfunc W) args kwargs (s : cstate) :
  is_caching_enabled s = true ->
  _generate_cache_key func args kwargs = None ->
  decorator func args kwargs s = (Raise TypeError, s).
Proof.
  intros Hon Hk. rewrite decorator_sync. unfold sync_wrapper, generate_cache_key.
  rewrite Hon, Hk. reflexivity.
Qed.

(** A hit: the stored value (or the error of [get]) is the outcome, and the
    callable is not called. *)
Lemma wrapper_hit (func : pyfunc W) args kwargs (s : cstate) k b1 r b2 :
  is_caching_enabled s = true ->
  _generate_cache_key func args kwargs = Some k ->
  has_key k (backend s) = (inr true, b1) ->
  get k b1 = (r, b2) ->
  decorator func args kwargs s
  = (outcome_of r,
     {| backend := b2; world := world s; environ := environ s;
        trace := trace s ++ [EvHasKey k; EvGet k] |}).
Proof.
  intros Hon Hk Hhas Hget. rewrite (wrapper_enabled _ _ _ _ k Hon Hk).
  unfold bind, backend_has_key, backend_get, backend_op.
  rewrite Hhas. cbn. rewrite Hget. rewrite <- app_assoc. now destruct r.
Qed.

(** A miss: the callable is called; its value is stored and returned, its
    error is raised with nothing stored. *)
Lemma wrapper_miss (func : pyfunc W) args kwargs (s : cstate) k b1 r w1 :
  is_caching_enabled s = true ->
  _generate_cache_key func args kwargs = Some k ->
  has_key k (backend s) = (inr false, b1) ->
  body func args kwargs (world s) = (r, w1) ->
  decorator func args kwargs s
  = match r with
    | inl e =>
        (Raise e,
         {| backend := b1; world := w1; environ := environ s;
            trace := trace s ++ [EvHasKey k; EvCall args kwargs] |})
    | inr v =>
        let '(r2, b2) := set k v b1 in
        (match r2 with inl e => Raise e | inr _ => Return v end,
         {| backend := b2; world := w1; environ := environ s;
            trace := trace s ++ [EvHasKey k; EvCall args kwargs; EvSet k v] |})
    end.
Proof.
  intros Hon Hk Hhas Hbody. rewrite (wrapper_enabled _ _ _ _ k Hon Hk).
  unfold bind, backend_has_key, backend_set, backend_op, call_func.
  rewrite Hhas. cbn. rewrite Hbody.
  destruct r as [e|v]; cbn.
  - now rewrite <- app_assoc.
  - destruct (set k v b1) as [r2 b2]. rewrite <- !app_assoc. now destruct r2.
Qed.

End Wrapper.

(** *** The disk backend *)

Section Disk.

Context {W : Type}.

Local Abbreviation dstate := (Cache.cstate DiskCacheBackend W).

Lemma disk_has_key_Some k (b : DiskCacheBackend) v :
  cache b !! k = Some v -> has_key k b = (inr true, b).
Proof. cbn. intros ->. reflexivity. Qed.

Lemma disk_has_key_None k (b : DiskCacheBackend) :
  cache b !! k = None -> has_key k b = (inr false, b).
Proof. cbn. intros ->. reflexivity. Qed.

Lemma disk_get_Some k (b : DiskCacheBackend) v :
  cache b !! k = Some v -> get k b = (inr v, b).
Proof. cbn. intros ->. reflexivity. Qed.

(** A call that returns under caching leaves its value under its key. *)
Lemma disk_returned_is_stored (func : pyfunc W) args kwargs (s s1 : dstate) v :
  is_caching_enabled s = true ->
  decorator func args kwargs s = (Return v, s1) ->
  exists k, _generate_cache_key func args kwargs = Some k
            /\ cache (backend s1) !! k = Some v
            /\ is_caching_enabled s1 = true.
Proof.
  intros Hon Hrun.
  destruct (_generate_cache_key func args kwargs) as [k|] eqn:Hk.
  2: { rewrite wrapper_unkeyable in Hrun by assumption. discriminate. }
  exists k. split; [reflexivity|].
  destruct (cache (backend s) !! k) as [v0|] eqn:Hlook.
  - rewrite (wrapper_hit func args kwargs s k (backend s) (inr v0) (backend s)
               Hon Hk (disk_has_key_Some _ _ _ Hlook) (disk_get_Some _ _ _ Hlook))
      in Hrun.
    inversion Hrun; subst. cbn. split; [exact Hlook|exact Hon].
  - destruct (body func args kwargs (world s)) as [r w1] eqn:Hbody.
    rewrite (wrapper_miss func args kwargs s k (backend s) r w1
               Hon Hk (disk_has_key_None _ _ Hlook) Hbody) in Hrun.
    destruct r as [e|v0]; [discriminate|].
    cbn in Hrun. inversion Hrun; subst. cbn.
    split; [apply lookup_insert_eq|exact Hon].
Qed.

(** A run of calls with caching off is the run of the callable. *)
Lemma run_calls_disabled {B} `{CacheInterface B} (func : pyfunc W) g cs
    (s : Cache.cstate B W) :
  (forall a k w, body func a k w = (g a k, w)) ->
  is_caching_enabled s = false ->
  (run_calls func cs s).1 = map (fun c => outcome_of (g c.1 c.2)) cs.
Proof.
  intros Hpure. revert s. induction cs as [|c cs IH]; intros s Hoff; [reflexivity|].
  cbn [run_calls map].
  rewrite (wrapper_disabled func c.1 c.2 s Hoff).
  rewrite (call_func_run func c.1 c.2 s _ _ (Hpure _ _ _)).
  specialize (IH {| backend := backend s; world := world s; environ := environ s;
                    trace := trace s ++ [EvCall c.1 c.2] |} Hoff).
  destruct (run_calls func cs _) as [rs s2]. cbn [fst snd backend cache] in IH |- *. now rewrite IH.
Qed.

(** A run of calls with caching on is the run of the callable too, when the
    result of the callable depends on the key of the call only and the store
    holds no other values. *)
Lemma run_calls_enabled (func : pyfunc W) g cs (s : dstate) :
  (forall a k w, body func a k w = (g a k, w)) ->
  is_caching_enabled s = true ->
  Forall (fun c => is_Some (_generate_cache_key func c.1 c.2)) cs ->
  (forall c1 c2, c1 ∈ cs -> c2 ∈ cs ->
     _generate_cache_key func c1.1 c1.2 = _generate_cache_key func c2.1 c2.2 ->
     g c1.1 c1.2 = g c2.1 c2.2) ->
  (forall c k v, c ∈ cs -> _generate_cache_key func c.1 c.2 = Some k ->
     cache (backend s) !! k = Some v -> g c.1 c.2 = inr v) ->
  (run_calls func cs s).1 = map (fun c => outcome_of (g c.1 c.2)) cs.
Proof.
  intros Hpure. revert s.
  induction cs as [|c cs IH]; intros s Hon Hkeys Hsame Hstore; [reflexivity|].
  apply Forall_cons in Hkeys as [[k Hk] Hkeys].
  assert (Hsame' : forall c1 c2, c1 ∈ cs -> c2 ∈ cs ->
     _generate_cache_key func c1.1 c1.2 = _generate_cache_key func c2.1 c2.2 ->
     g c1.1 c1.2 = g c2.1 c2.2).
  { intros c1 c2 H1 H2. apply Hsame; now right. }
  cbn [run_calls map].
  destruct (cache (backend s) !! k) as [v|] eqn:Hlook.
  - rewrite (wrapper_hit func c.1 c.2 s k (backend s) (inr v) (backend s)
               Hon Hk (disk_has_key_Some _ _ _ Hlook) (disk_get_Some _ _ _ Hlook)).
    rewrite (Hstore c k v) by (auto; now left).
    match goal with |- context [run_calls func cs ?s1] =>
      specialize (IH s1 Hon Hkeys Hsame');
      destruct (run_calls func cs s1) as [rs s2] end.
    cbn [fst snd backend cache] in IH |- *. rewrite IH; [reflexivity|].
    intros c' k' v' Hin. apply Hstore. now right.
  - rewrite (wrapper_miss func c.1 c.2 s k (backend s) _ _ Hon Hk
               (disk_has_key_None _ _ Hlook) (Hpure _ _ _)).
    destruct (g c.1 c.2) as [e|v] eqn:Hg.
    + match goal with |- context [run_calls func cs ?s1] =>
        specialize (IH s1 Hon Hkeys Hsame');
        destruct (run_calls func cs s1) as [rs s2] end.
      cbn [fst snd backend cache] in IH |- *. rewrite IH; [reflexivity|].
      intros c' k' v' Hin. apply Hstore. now right.
    + cbn [set DiskCacheBackend_interface].
      match goal with |- context [run_calls func cs ?s1] =>
        specialize (IH s1 Hon Hkeys Hsame');
        destruct (run_calls func cs s1) as [rs s2] end.
      cbn [fst snd backend cache] in IH |- *. rewrite IH; [reflexivity|].
      intros c' k' v' Hin Hk'. cbn [backend cache].
      destruct (decide (k = k')) as [<-|Hne].
      * rewrite lookup_insert_eq. intros [= <-].
        rewrite <- Hg. apply Hsame; [now right|now left|congruence].
      * rewrite lookup_insert_ne by exact Hne.
        apply Hstore; [now right|exact Hk'].
Qed.

End Disk.

(** *** The claims on the wrapper *)

(** C3: with caching on, when the backend says that it holds the key of the
    call, the outcome is what [get] gives and the callable is not called
    (the state it acts on is as before and the log has the two backend reads
    only).  Hence, on the disk backend, after a call that returned [v] a call
    with the same key returns [v] and does not call the callable. *)
Theorem cache_hit_skips_callable :
  (forall B W (I : CacheInterface B) (func : pyfunc W) args kwargs
      (s : cstate B W) k b1 r b2,
      is_caching_enabled s = true ->
      _generate_cache_key func args kwargs = Some k ->
      has_key k (backend s) = (inr true, b1) ->
      get k b1 = (r, b2) ->
      decorator func args kwargs s
      = (outcome_of r,
         {| backend := b2; world := world s; environ := environ s;
            trace := trace s ++ [EvHasKey k; EvGet k] |}))
  /\ (forall W (func : pyfunc W) args kwargs args' kwargs'
        (s s1 : cstate DiskCacheBackend W) v,
      is_caching_enabled s = true ->
      decorator func args kwargs s = (Return v, s1) ->
      _generate_cache_key func args' kwargs' = _generate_cache_key func args kwargs ->
      exists k,
        decorator func args' kwargs' s1
        = (Return v,
           {| backend := backend s1; world := world s1; environ := environ s1;
              trace := trace s1 ++ [EvHasKey k; EvGet k] |})).
Proof.
  split.
  - intros B W I func args kwargs s k b1 r b2. apply wrapper_hit.
  - intros W func args kwargs args' kwargs' s s1 v Hon Hrun Hkey.
    destruct (disk_returned_is_stored func args kwargs s s1 v Hon Hrun)
      as (k & Hk & Hlook & Hon1).
    exists k. rewrite Hk in Hkey.
    apply (wrapper_hit func args' kwargs' s1 k (backend s1) (inr v) (backend s1)
             Hon1 Hkey (disk_has_key_Some _ _ _ Hlook) (disk_get_Some _ _ _ Hlook)).
Qed.

(** C4 (as amended): with the switch off the wrapper calls the callable and
    gives its outcome, and no backend operation is made (the backend is as
    before and the log has the call only).  For a callable without effects
    whose result depends on the cache key only, and calls whose keys can be
    computed, a run of calls with the switch off has the outcomes of the
    same run with the switch on and a cache that is empty at the start. *)
Theorem disabled_agrees_with_enabled :
  (forall B W (I : CacheInterface B) (func : pyfunc W) args kwargs
      (s : cstate B W) r w1,
      is_caching_enabled s = false ->
      body func args kwargs (world s) = (r, w1) ->
      decorator func args kwargs s
      = (outcome_of r,
         {| backend := backend s; world := w1; environ := environ s;
            trace := trace s ++ [EvCall args kwargs] |}))
  /\ (forall B W (I : CacheInterface B) (func : pyfunc W) g cs
        (s_off : cstate B W) (s_on : cstate DiskCacheBackend W),
      (forall a k w, body func a k w = (g a k, w)) ->
      is_caching_enabled s_off = false ->
      is_caching_enabled s_on = true ->
      cache (backend s_on) = ∅ ->
      Forall (fun c => is_Some (_generate_cache_key func c.1 c.2)) cs ->
      (forall c1 c2, c1 ∈ cs -> c2 ∈ cs ->
         _generate_cache_key func c1.1 c1.2 = _generate_cache_key func c2.1 c2.2 ->
         g c1.1 c1.2 = g c2.1 c2.2) ->
      (run_calls func cs s_off).1 = (run_calls func cs s_on).1).
Proof.
  split.
  - intros B W I func args kwargs s r w1 Hoff Hbody.
    rewrite (wrapper_disabled func args kwargs s Hoff).
    now apply call_func_run.
  - intros B W I func g cs s_off s_on Hpure Hoff Hon Hempty Hkeys Hsame.
    rewrite (run_calls_disabled func g cs s_off Hpure Hoff).
    rewrite (run_calls_enabled func g cs s_on Hpure Hon Hkeys Hsame); [reflexivity|].
    intros c k v _ _. rewrite Hempty, lookup_empty. discriminate.
Qed.

(** C5: with caching on, when the key is not held and the callable raises,
    the wrapper raises the same error and makes no [set]; on the disk
    backend the store is as before, and the same call made again calls the
    callable again. *)
Theorem failure_is_not_cached :
  (forall B W (I : CacheInterface B) (func : pyfunc W) args kwargs
      (s : cstate B W) k b1 e w1,
      is_caching_enabled s = true ->
      _generate_cache_key func args kwargs = Some k ->
      has_key k (backend s) = (inr false, b1) ->
      body func args kwargs (world s) = (inl e, w1) ->
      decorator func args kwargs s
      = (Raise e,
         {| backend := b1; world := w1; environ := environ s;
            trace := trace s ++ [EvHasKey k; EvCall args kwargs] |}))
  /\ (forall W (func : pyfunc W) args kwargs (s : cstate DiskCacheBackend W)
        k e w1,
      is_caching_enabled s = true ->
      _generate_cache_key func args kwargs = Some k ->
      cache (backend s) !! k = None ->
      body func args kwargs (world s) = (inl e, w1) ->
      exists s1,
        decorator func args kwargs s = (Raise e, s1)
        /\ backend s1 = backend s
        /\ cache (backend s1) !! k = None
        /\ forall r w2,
            body func args kwargs w1 = (r, w2) ->
            exists s2,
              decorator func args kwargs s1 = (outcome_of r, s2)
              /\ world s2 = w2
              /\ trace s2
                 = trace s1 ++ [EvHasKey k; EvCall args kwargs]
                   ++ match r with inr v => [EvSet k v] | inl _ => [] end).
Proof.
  split.
  - intros B W I func args kwargs s k b1 e w1 Hon Hk Hhas Hbody.
    now rewrite (wrapper_miss func args kwargs s k b1 _ _ Hon Hk Hhas Hbody).
  - intros W func args kwargs s k e w1 Hon Hk Hlook Hbody.
    set (s1 := {| backend := backend s; world := w1; environ := environ s;
                  trace := trace s ++ [EvHasKey k; EvCall args kwargs] |}).
    exists s1. split; [|split; [|split]].
    + now rewrite (wrapper_miss func args kwargs s k (backend s) _ _ Hon Hk
                     (disk_has_key_None _ _ Hlook) Hbody).
    + reflexivity.
    + exact Hlook.
    + intros r w2 Hbody2.
      rewrite (wrapper_miss func args kwargs s1 k (backend s) r w2 Hon Hk
                 (disk_has_key_None _ _ Hlook) Hbody2).
      destruct r as [e2|v]; eexists; (split; [reflexivity|split; reflexivity]).
Qed.

(** C9 (as amended): with caching on, an error of a backend operation is not
    caught: it goes to the caller as it is, and no value is returned.  When
    [has_key] or [get] raises, the callable is not called; when [set] raises,
    the callable has returned and its result is dropped. *)
Theorem backend_failure_propagates :
  forall B W (I : CacheInterface B) (func : pyfunc W) args kwargs
    (s : cstate B W) k,
    is_caching_enabled s = true ->
    _generate_cache_key func args kwargs = Some k ->
    (forall e b1,
        has_key k (backend s) = (inl e, b1) ->
        decorator func args kwargs s
        = (Raise e,
           {| backend := b1; world := world s; environ := environ s;
              trace := trace s ++ [EvHasKey k] |}))
    /\ (forall e b1 b2,
        has_key k (backend s) = (inr true, b1) ->
        get k b1 = (inl e, b2) ->
        decorator func args kwargs s
        = (Raise e,
           {| backend := b2; world := world s; environ := environ s;
              trace := trace s ++ [EvHasKey k; EvGet k] |}))
    /\ (forall e b1 b2 v w1,
        has_key k (backend s) = (inr false, b1) ->
        body func args kwargs (world s) = (inr v, w1) ->
        set k v b1 = (inl e, b2) ->
        decorator func args kwargs s
        = (Raise e,
           {| backend := b2; world := w1; environ := environ s;
              trace := trace s ++ [EvHasKey k; EvCall args kwargs; EvSet k v] |})).
Proof.
  intros B W I func args kwargs s k Hon Hk. split; [|split].
  - intros e b1 Hhas. rewrite (wrapper_enabled func args kwargs s k Hon Hk).
    apply bind_Raise. unfold backend_has_key.
    now rewrite (backend_op_run _ _ s _ _ Hhas).
  - intros e b1 b2 Hhas Hget.
    now rewrite (wrapper_hit func args kwargs s k b1 (inl e) b2 Hon Hk Hhas Hget).
  - intros e b1 b2 v w1 Hhas Hbody Hset.
    rewrite (wrapper_miss func args kwargs s k b1 _ _ Hon Hk Hhas Hbody).
    now rewrite Hset.
Qed.

(** *** The claims on concrete callables and backends *)

Lemma cache_hit_witness :
  exists k,
    decorator counting [input_ba] [] after_first_call
    = (Return (PInt 0),
       {| backend := backend after_first_call; world := world after_first_call;
          environ := environ after_first_call;
          trace := trace after_first_call ++ [EvHasKey k; EvGet k] |}).
Proof.
  apply (proj2 cache_hit_skips_callable nat counting [input_ab] [] [input_ba] []
           (fresh env_on 0%nat) after_first_call (PInt 0)).
  - reflexivity.
  - vm_compute. reflexivity.
  - vm_compute. reflexivity.
Defined.

Lemma disabled_agrees_witness :
  (run_calls echo three_calls (fresh env_off tt)).1
  = (run_calls echo three_calls (fresh env_on tt)).1.
Proof.
  apply (proj2 disabled_agrees_with_enabled DiskCacheBackend unit _ echo
           echo_result three_calls (fresh env_off tt) (fresh env_on tt)).
  - reflexivity.
  - reflexivity.
  - reflexivity.
  - reflexivity.
  - repeat constructor; vm_compute; eexists; reflexivity.
  - intros c1 c2 H1 H2 Hkey. unfold three_calls in H1, H2.
    repeat (apply elem_of_cons in H1 as [->|H1]);
      try (apply elem_of_nil in H1; destruct H1);
      repeat (apply elem_of_cons in H2 as [->|H2]);
      try (apply elem_of_nil in H2; destruct H2);
      try reflexivity; vm_compute in Hkey; discriminate.
Defined.

(** C4 as stated fails on the code.  A callable without effects that is given
    a set of an integer and a string returns with the switch off; with the
    switch on and an empty cache the computation of the key raises
    [TypeError], from [sorted] on the elements of the set. *)
Lemma disabled_agrees_counterexample :
  (decorator answer_42 [mixed_set] [] (fresh env_off tt)).1 = Return (PInt 42)
  /\ (decorator answer_42 [mixed_set] [] (fresh env_on tt)).1 = Raise TypeError.
Proof. split; vm_compute; reflexivity. Qed.

Lemma failure_witness :
  decorator failing [] [] (fresh env_on 0%nat)
  = (Raise (OtherError "boom"),
     {| backend := {| cache := ∅ |}; world := 1%nat; environ := env_on;
        trace := [EvHasKey failing_key; EvCall [] []] |}).
Proof.
  apply (proj1 failure_is_not_cached DiskCacheBackend nat _ failing [] []
           (fresh env_on 0%nat) failing_key {| cache := ∅ |}
           (OtherError "boom") 1%nat).
  - reflexivity.
  - vm_compute. reflexivity.
  - reflexivity.
  - reflexivity.
Defined.

Lemma backend_failure_witness :
  @decorator unit unit full_disk answer_42 [] [] on_full_disk
  = (Raise (OtherError "disk full"),
     {| backend := tt; world := tt; environ := env_on;
        trace := [EvHasKey answer_key; EvCall [] []; EvSet answer_key (PInt 42)] |}).
Proof.
  apply (proj2 (proj2 (backend_failure_propagates unit unit full_disk answer_42
                         [] [] on_full_disk answer_key eq_refl eq_refl))
           (OtherError "disk full") tt tt (PInt 42) tt);
    reflexivity.
Defined.

(** C9 as stated fails on the code.  On a backend that cannot store, the
    callable returns 42 and the wrapper raises the error of [set]: the result
    is neither returned nor passed through.  The error is the one a callable
    raising it would give on a sound backend, so nothing marks it as an error
    of the backend. *)
Lemma backend_failure_counterexample :
  (@decorator unit unit full_disk answer_42 [] [] on_full_disk).1
  = Raise (OtherError "disk full")
  /\ body answer_42 [] [] tt = (inr (PInt 42), tt)
  /\ (decorator raises_disk_full [] [] (fresh env_on tt)).1
     = Raise (OtherError "disk full").
Proof. split; [|split]; vm_compute; reflexivity. Qed.

End CacheFacts.

Module MetricsFacts.
Import Metrics.

Lemma range_step_multiples (b : Z) (q : nat) :
  0 < b ->
  range_step 0 (b * Z.of_nat q) b = (fun k => k * b) <$> seqZ 0 (Z.of_nat q).
Proof.
  intros Hb. unfold range_step, range_len.
  destruct (Z.ltb_spec 0 b) as [_|]; [|lia].
  destruct (Z.ltb_spec 0 (b * Z.of_nat q)) as [Hpos|Hz].
  - replace ((b * Z.of_nat q - 0 - 1) / b + 1) with (Z.of_nat q); [reflexivity|].
    replace (b * Z.of_nat q - 0 - 1) with ((b - 1) + (Z.of_nat q - 1) * b) by lia.
    rewrite Z.div_add by lia. rewrite Z.div_small by lia. lia.
  - assert (q = 0%nat) by nia. subst. reflexivity.
Qed.

(** The batches in full: batch [k] is [range(k * b, k * b + b)] for
    [k < total / b], followed by the rest when there is one. *)
Lemma make_batches_shape total b :
  0 <= total -> 0 < b ->
  make_batches total b
  = inr (((fun k => {| start := k * b; stop := k * b + b |})
            <$> seqZ 0 (total / b))
         ++ (if negb (total mod b =? 0)
             then [{| start := b * (total / b); stop := total |}] else [])).
Proof.
  intros Ht Hb. unfold make_batches.
  destruct (Z.eqb_spec b 0) as [|_]; [lia|].
  assert (Hq : 0 <= total / b) by (apply Z.div_pos; lia).
  assert (Hmul : range_step 0 (b * (total / b)) b
                 = (fun k => k * b) <$> seqZ 0 (total / b)).
  { rewrite <- (Z2Nat.id (total / b)) by exact Hq.
    now apply range_step_multiples. }
  cbv zeta. rewrite Hmul, <- list_fmap_compose.
  replace (b * (total / b) + total mod b) with total
    by (pose proof (Z.div_mod total b); lia).
  destruct (negb (total mod b =? 0)); [reflexivity|].
  now rewrite app_nil_r.
Qed.


Lemma concat_full_batches (b : Z) (q : nat) :
  0 < b ->
  concat (range_list <$> ((fun k => {| start := k * b; stop := k * b + b |})
                            <$> seqZ 0 (Z.of_nat q)))
  = seqZ 0 (Z.of_nat q * b).
Proof.
  intros Hb. induction q as [|q IH]; [reflexivity|].
  rewrite seqZ_S, !fmap_app, concat_app, IH. cbn [fmap list_fmap concat].
  rewrite app_nil_r. unfold range_list. cbn [start stop].
  replace (Z.of_nat (S q) * b) with (Z.of_nat q * b + b) by lia.
  rewrite seqZ_app by lia.
  repeat f_equal; lia.
Qed.

(** X1 ([make_batches], cover): for a size [total_size >= 0] and a batch
    size [batch_size > 0], the batches put one after the other run over
    [0, 1, ..., total_size - 1], each index once and in order. *)
Theorem make_batches_cover total_size batch_size :
  0 <= total_size -> 0 < batch_size -> total_size + batch_size <= 2 ^ 52 ->
  exists batches,
    make_batches total_size batch_size = inr batches
    /\ concat (range_list <$> batches) = seqZ 0 total_size.
Proof.
  intros Ht Hb _. eexists. split; [now apply make_batches_shape|].
  assert (Hq : 0 <= total_size / batch_size) by (apply Z.div_pos; lia).
  pose proof (Z.div_mod total_size batch_size) as Hdm.
  pose proof (Z.mod_pos_bound total_size batch_size Hb) as Hr.
  rewrite fmap_app, concat_app.
  rewrite <- (Z2Nat.id (total_size / batch_size)) at 1 by exact Hq.
  rewrite concat_full_batches by exact Hb.
  rewrite Z2Nat.id by exact Hq.
  transitivity (seqZ 0 (total_size / batch_size * batch_size)
                ++ seqZ (0 + total_size / batch_size * batch_size)
                     (total_size mod batch_size)).
  - f_equal.
    destruct (Z.eqb_spec (total_size mod batch_size) 0) as [Hz|Hnz]; cbn.
    + rewrite Hz. reflexivity.
    + rewrite app_nil_r. unfold range_list. cbn [start stop].
      f_equal; lia.
  - rewrite <- seqZ_app by lia. f_equal. lia.
Qed.

(** X2 ([make_batches], shape): there are [ceil(total_size / batch_size)]
    batches, and batch [i] is [range(i * batch_size, min((i + 1) * batch_size,
    total_size))]: every batch is full but possibly the last, and none is
    empty. *)
Theorem make_batches_positions total_size batch_size batches :
  0 <= total_size -> 0 < batch_size -> total_size + batch_size <= 2 ^ 52 ->
  make_batches total_size batch_size = inr batches ->
  length batches = Z.to_nat ((total_size + batch_size - 1) / batch_size)
  /\ forall i r,
      batches !! i = Some r ->
      start r = Z.of_nat i * batch_size
      /\ stop r = Z.min (Z.of_nat i * batch_size + batch_size) total_size
      /\ start r < stop r.
Proof.
  intros Ht Hb _. rewrite make_batches_shape by assumption. intros [= <-].
  assert (Hq : 0 <= total_size / batch_size) by (apply Z.div_pos; lia).
  pose proof (Z.div_mod total_size batch_size) as Hdm.
  pose proof (Z.mod_pos_bound total_size batch_size Hb) as Hr.
  split.
  - rewrite length_app, length_fmap, length_seqZ.
    destruct (Z.eqb_spec (total_size mod batch_size) 0) as [Hz|Hnz]; cbn [negb length].
    + replace (total_size + batch_size - 1)
        with ((batch_size - 1) + total_size / batch_size * batch_size) by lia.
      rewrite Z.div_add by lia.
      rewrite (Z.div_small (batch_size - 1) batch_size) by lia. lia.
    + replace (total_size + batch_size - 1)
        with ((total_size mod batch_size - 1)
              + (total_size / batch_size + 1) * batch_size) by lia.
      rewrite Z.div_add by lia.
      rewrite (Z.div_small (total_size mod batch_size - 1) batch_size) by lia.
      lia.
  - intros i r Hi.
    apply lookup_app_Some in Hi as [Hi|[Hlen Hi]].
    + apply list_lookup_fmap_Some in Hi as (k & -> & Hk).
      apply lookup_seqZ in Hk as [-> Hlt]. cbn [start stop]. nia.
    + rewrite length_fmap, length_seqZ in Hlen.
      destruct (Z.eqb_spec (total_size mod batch_size) 0) as [Hz|Hnz];
        cbn [negb] in Hi; [now rewrite lookup_nil in Hi|].
      apply list_lookup_singleton_Some in Hi as [Hi <-].
      rewrite length_fmap, length_seqZ in Hi. cbn [start stop].
      replace (Z.of_nat i) with (total_size / batch_size) by lia. nia.
Qed.

(** X3 ([make_batches], edges): a batch size of 0 raises
    [ZeroDivisionError], and nothing else does; a size of 0 gives no batch;
    a size below the batch size gives the one batch [range(0, total_size)]. *)
Theorem make_batches_edges :
  (forall total_size batch_size,
      make_batches total_size batch_size = inl ZeroDivisionError <-> batch_size = 0)
  /\ (forall batch_size, batch_size <> 0 -> make_batches 0 batch_size = inr [])
  /\ (forall total_size batch_size,
      0 < total_size < batch_size -> total_size + batch_size <= 2 ^ 52 ->
      make_batches total_size batch_size
      = inr [{| start := 0; stop := total_size |}]).
Proof.
  split; [|split].
  - intros t b. unfold make_batches.
    destruct (Z.eqb_spec b 0); split; intros; try congruence; discriminate.
  - intros b Hb. unfold make_batches.
    destruct (Z.eqb_spec b 0) as [|_]; [contradiction|].
    cbv zeta. rewrite Z.mod_0_l, Z.div_0_l by exact Hb. cbn [Z.eqb negb].
    rewrite Z.mul_0_r. unfold range_step, range_len.
    rewrite Z.ltb_irrefl. now destruct (0 <? b).
  - intros t b [Ht Hlt] _. rewrite make_batches_shape by lia.
    rewrite Z.div_small, Z.mod_small by lia. cbn.
    destruct (Z.eqb_spec t 0); [lia|]. cbn. now rewrite Z.mul_0_r.
Qed.

Lemma make_batches_cover_witness :
  exists batches,
    make_batches 10 3 = inr batches
    /\ concat (range_list <$> batches) = seqZ 0 10.
Proof. apply (make_batches_cover 10 3); lia. Defined.

Lemma make_batches_positions_witness :
  length [ {| start := 0; stop := 3 |}; {| start := 3; stop := 6 |};
           {| start := 6; stop := 7 |} ]
  = Z.to_nat ((7 + 3 - 1) / 3)
  /\ forall i r,
      [ {| start := 0; stop := 3 |}; {| start := 3; stop := 6 |};
        {| start := 6; stop := 7 |} ] !! i = Some r ->
      start r = Z.of_nat i * 3
      /\ stop r = Z.min (Z.of_nat i * 3 + 3) 7
      /\ start r < stop r.
Proof. apply (make_batches_positions 7 3); try lia. reflexivity. Defined.

End MetricsFacts.

Module ValidationFacts.
Import Metrics Validation.

Lemma check_columns_ok check error columns features :
  check_columns check error columns features = inr tt
  <-> forall c f, c ∈ columns -> features !! c = Some f -> check f = true.
Proof.
  induction columns as [|c0 rest IH]; cbn [check_columns].
  - split; [intros _ c f Hc; inversion Hc|reflexivity].
  - destruct (features !! c0) as [f0|] eqn:Hf0.
    + destruct (check f0) eqn:Hchk.
      * rewrite IH. split.
        -- intros H c f Hc Hf. apply elem_of_cons in Hc as [->|Hc]; [congruence|eauto].
        -- intros H c f Hc. apply H. now right.
      * split; [discriminate|].
        intros H. specialize (H c0 f0 (list_elem_of_here _ _) Hf0). congruence.
    + rewrite IH. split.
      * intros H c f Hc Hf. apply elem_of_cons in Hc as [->|Hc]; [congruence|eauto].
      * intros H c f Hc. apply H. now right.
Qed.

Lemma dtype_string f : dtype f = "string" <-> f = Value "string".
Proof. destruct f; cbn; split; intros; try congruence; discriminate. Qed.

Lemma is_string_sequence_true f :
  is_string_sequence f = true <-> f = Sequence (Value "string").
Proof.
  destruct f as [d|inner]; cbn; [split; discriminate|].
  rewrite String.eqb_eq, dtype_string. split; congruence.
Qed.

(** X4 ([validate_column_dtypes]): the check passes exactly when [question]
    and [answer], where present, are string values, and [contexts] and
    [ground_truths], where present, are sequences of string values; a column
    that is absent is not asked for. *)
Theorem validate_column_dtypes_passes features :
  validate_column_dtypes features = inr tt
  <-> (forall c f, c ∈ ["question"; "answer"] -> features !! c = Some f ->
         f = Value "string")
      /\ (forall c f, c ∈ ["contexts"; "ground_truths"] -> features !! c = Some f ->
         f = Sequence (Value "string")).
Proof.
  unfold validate_column_dtypes.
  destruct (check_columns _ should_be_string _ features) as [e|[]] eqn:H1.
  - split; [discriminate|]. intros [Hs _].
    assert (check_columns (fun f => String.eqb (dtype f) "string") should_be_string
              ["question"; "answer"] features = inr tt) as H2; [|congruence].
    apply check_columns_ok. intros c f Hc Hf.
    apply String.eqb_eq, dtype_string. eauto.
  - pose proof (proj1 (check_columns_ok _ _ _ _) H1) as H1'. cbn beta in H1'.
    clear H1. rename H1' into H1. rewrite check_columns_ok. split.
    + intros H2. split; intros c f Hc Hf.
      * apply dtype_string, String.eqb_eq. eauto.
      * apply is_string_sequence_true. eauto.
    + intros [_ H2] c f Hc Hf. apply is_string_sequence_true. eauto.
Qed.

Lemma check_columns_frame check error columns features c f :
  c ∉ columns ->
  check_columns check error columns (<[c := f]> features)
  = check_columns check error columns features.
Proof.
  induction columns as [|c0 rest IH]; intros Hc; [reflexivity|].
  apply not_elem_of_cons in Hc as [Hne Hc]. cbn [check_columns].
  rewrite lookup_insert_ne by exact Hne. rewrite IH by exact Hc. reflexivity.
Qed.

(** X5 ([validate_column_dtypes], frame): a column other than the four that
    are named is never looked at: adding it or changing its feature changes
    neither the verdict nor the error. *)
Theorem validate_column_dtypes_other_column features c f :
  c ∉ ["question"; "answer"; "contexts"; "ground_truths"] ->
  validate_column_dtypes (<[c := f]> features) = validate_column_dtypes features.
Proof.
  intros Hc. unfold validate_column_dtypes.
  rewrite !check_columns_frame; [reflexivity| |];
    intros Hin; apply Hc; set_solver.
Qed.

Lemma elem_of_required (metrics : list Metric) (acc : gset string) c :
  c ∈ foldl (fun acc m => acc ∪ list_to_set (EVALMODE_TO_COLUMNS (evaluation_mode m)))
        acc metrics
  <-> c ∈ acc
      \/ exists m, m ∈ metrics /\ c ∈ EVALMODE_TO_COLUMNS (evaluation_mode m).
Proof.
  revert acc. induction metrics as [|m0 rest IH]; intros acc; cbn [foldl].
  - split; [tauto|]. intros [H|(m & Hm & _)]; [exact H|inversion Hm].
  - rewrite IH, elem_of_union, elem_of_list_to_set. split.
    + intros [[H|H]|(m & Hm & H)]; [tauto| |].
      * right. exists m0. split; [left|exact H].
      * right. exists m. split; [now right|exact H].
    + intros [H|(m & Hm & H)]; [tauto|].
      apply elem_of_cons in Hm as [->|Hm]; [tauto|]. right. eauto.
Qed.

(** X6 ([validate_evaluation_modes]): the check passes exactly when the
    columns of the dataset are the columns the metrics' evaluation modes
    name, no more and no fewer; when it fails, the error is a [ValueError]
    with one fixed message. *)
Theorem validate_evaluation_modes_passes features metrics :
  (validate_evaluation_modes features metrics = inr tt
   <-> forall c, is_Some (features !! c)
                 <-> exists m, m ∈ metrics
                               /\ c ∈ EVALMODE_TO_COLUMNS (evaluation_mode m))
  /\ (validate_evaluation_modes features metrics = inr tt
      \/ validate_evaluation_modes features metrics
         = inl (ValueError columns_message)).
Proof.
  unfold validate_evaluation_modes. cbv zeta.
  destruct (bool_decide_reflect
              (foldl (fun acc m => acc ∪ list_to_set
                        (EVALMODE_TO_COLUMNS (evaluation_mode m))) ∅ metrics
               ≠ dom features)) as [Hne|Heq].
  - split; [|now right]. split; [discriminate|].
    intros H. exfalso. apply Hne. apply set_eq. intros c.
    rewrite elem_of_required, elem_of_dom, H. set_solver.
  - split; [|now left]. split; [|reflexivity]. intros _ c.
    apply dec_stable in Heq. rewrite <- elem_of_dom, <- Heq, elem_of_required.
    set_solver.
Qed.

Lemma validate_column_dtypes_witness :
  validate_column_dtypes
    (<[ "id" := Value "int64" ]>
       {[ "question" := Value "string"; "contexts" := Sequence (Value "string") ]})
  = validate_column_dtypes
      {[ "question" := Value "string"; "contexts" := Sequence (Value "string") ]}.
Proof.
  apply validate_column_dtypes_other_column.
  apply (bool_decide_unpack _). vm_compute. exact I.
Defined.

End ValidationFacts.

Module DatasetSchemaFacts.
Import Cache DatasetSchema.

(** The message before position [i] of [messages], [prev] before the first. *)
Lemma check_tool_messages_ok text_of prev messages :
  check_tool_messages text_of prev messages = inr tt
  <-> forall i c,
        messages !! i = Some (ToolMessage c) ->
        exists c' calls,
          match i with
          | O => prev
          | S j => messages !! j
          end = Some (AIMessage c' (Some calls)).
Proof.
  revert prev. induction messages as [|m rest IH]; intros prev.
  - split; [intros _ i c Hi; now rewrite lookup_nil in Hi|reflexivity].
  - assert (Hstep : check_tool_messages text_of (Some m) rest = inr tt
                    <-> forall i c, rest !! i = Some (ToolMessage c) ->
                          exists c' calls,
                            (m :: rest) !! i = Some (AIMessage c' (Some calls))).
    { rewrite IH. split; intros H i c Hi; destruct (H i c Hi) as (c' & calls & Hp);
        exists c', calls; destruct i; exact Hp. }
    assert (Hcons : forall (Q : Prop),
      (Q /\ forall i c, rest !! i = Some (ToolMessage c) ->
              exists c' calls, (m :: rest) !! i = Some (AIMessage c' (Some calls)))
      -> (forall c, m = ToolMessage c ->
            exists c' calls, prev = Some (AIMessage c' (Some calls))) ->
      forall i c, (m :: rest) !! i = Some (ToolMessage c) ->
        exists c' calls,
          match i with O => prev | S j => (m :: rest) !! j end
          = Some (AIMessage c' (Some calls))).
    { intros Q [_ Hrest] Hhead [|i] c Hi; [apply (Hhead c); now inversion Hi|].
      exact (Hrest i c Hi). }
    cbn [check_tool_messages].
    destruct m as [c0|c0 tc0|c0].
    + rewrite Hstep. split.
      * intros H. apply (Hcons True); [tauto|discriminate].
      * intros H i c Hi. exact (H (S i) c Hi).
    + rewrite Hstep. split.
      * intros H. apply (Hcons True); [tauto|discriminate].
      * intros H i c Hi. exact (H (S i) c Hi).
    + destruct prev as [[cp|cp [calls|]|cp]|].
      * split; [discriminate|]. intros H.
        destruct (H 0%nat c0 eq_refl) as (? & ? & [=]).
      * rewrite Hstep. split.
        -- intros H. apply (Hcons True); [tauto|]. intros c _. eauto.
        -- intros H i c Hi. exact (H (S i) c Hi).
      * split; [discriminate|]. intros H.
        destruct (H 0%nat c0 eq_refl) as (? & ? & [=]).
      * split; [discriminate|]. intros H.
        destruct (H 0%nat c0 eq_refl) as (? & ? & [=]).
      * split; [discriminate|]. intros H.
        destruct (H 0%nat c0 eq_refl) as (? & ? & [=]).
Qed.

(** X7 ([MultiTurnSample.validate_messages]): the messages are accepted, and
    returned as they are, exactly when every [ToolMessage] comes right after
    an [AIMessage] whose [tool_calls] is not [None]; so a [ToolMessage] in
    the first place, or right after another [ToolMessage], is refused. *)
Theorem validate_messages_accepts text_of messages :
  (forall result,
      validate_messages text_of messages = inr result
      <-> result = messages
          /\ forall i c,
              messages !! i = Some (ToolMessage c) ->
              exists j c' calls,
                i = S j /\ messages !! j = Some (AIMessage c' (Some calls)))
  /\ (forall c rest, validate_messages text_of (ToolMessage c :: rest)
                     = inl (ValueError
                              "ToolMessage instances must be preceded by an AIMessage instance."))
  /\ (forall pre c1 c2 rest result,
        validate_messages text_of (pre ++ ToolMessage c1 :: ToolMessage c2 :: rest)
        <> inr result).
Proof.
  assert (Hiff : forall result,
      validate_messages text_of messages = inr result
      <-> result = messages
          /\ forall i c,
              messages !! i = Some (ToolMessage c) ->
              exists j c' calls,
                i = S j /\ messages !! j = Some (AIMessage c' (Some calls))).
  { intros result. unfold validate_messages. cbn [negb].
    destruct (check_tool_messages text_of None messages) as [e|[]] eqn:Hchk.
    - split; [discriminate|]. intros [_ H].
      assert (check_tool_messages text_of None messages = inr tt) as Hok; [|congruence].
      apply check_tool_messages_ok. intros i c Hi.
      destruct (H i c Hi) as (j & c' & calls & -> & Hj). eauto.
    - pose proof (proj1 (check_tool_messages_ok _ _ _) Hchk) as Hok.
      clear Hchk. rename Hok into Hchk. split.
      + intros [= <-]. split; [reflexivity|]. intros i c Hi.
        destruct (Hchk i c Hi) as (c' & calls & Hp).
        destruct i as [|j]; [discriminate|]. eauto.
      + intros [-> _]. reflexivity. }
  split; [exact Hiff|split].
  - reflexivity.
  - intros pre c1 c2 rest result Hrun.
    assert (Hgen : forall ms res,
      validate_messages text_of ms = inr res ->
      forall i c, ms !! i = Some (ToolMessage c) ->
        exists j c' calls, i = S j /\ ms !! j = Some (AIMessage c' (Some calls))).
    { intros ms res. unfold validate_messages. cbn [negb].
      destruct (check_tool_messages text_of None ms) as [e|[]] eqn:Hchk; [discriminate|].
      intros _ i c Hi.
      destruct (proj1 (check_tool_messages_ok _ _ _) Hchk i c Hi)
        as (c' & calls & Hp).
      destruct i as [|j]; [discriminate|]. eauto. }
    destruct (Hgen _ _ Hrun (S (length pre)) c2) as (j & c' & calls & Hj & Hlook).
    + rewrite lookup_app_r by lia.
      replace (S (length pre) - length pre)%nat with 1%nat by lia. reflexivity.
    + injection Hj as <-.
      rewrite lookup_app_r in Hlook by lia.
      rewrite Nat.sub_diag in Hlook. discriminate.
Qed.

(** X8 ([SingleTurnSample.dict]): the method calls itself before anything
    else, so it returns a row for no sample, however deep the calls may
    go. *)
Theorem SingleTurnSample_dict_never_returns fuel self :
  SingleTurnSample_dict fuel self = Diverge.
Proof.
  induction fuel as [|fuel IH]; [reflexivity|].
  cbn [SingleTurnSample_dict]. now rewrite IH.
Qed.

End DatasetSchemaFacts.

Module PromptMore.
Import Prompt PromptFacts.

Section InvokerMore.

Context {L Model Obj : Type} `{BaseRagasLLM L} `{Pydantic Model Obj}.

Local Abbreviation pstate := (Prompt.pstate L).
Local Abbreviation PydanticPrompt := (Prompt.PydanticPrompt Model Obj).

(** X9 ([parse_output_string], repair success): when the text does not parse,
    the budget is not 0, the repair call answers with a text that parses as a
    [StringIO], and the repaired text parses, the repaired result is returned
    after exactly that one model call. *)
Theorem repair_succeeds_once fuel m txt (pv : PromptValue) mr (s : pstate)
    t g rest l' r a :
  parse m txt = None -> mr <> 0 ->
  llm_generate
    (to_string fix_output_format_prompt
       (OutputStringAndPrompt txt (PromptValue_to_string pv)))
    {| n := 1; temperature := None; stop := None; callbacks := [] |} (llm s)
  = (inr ((t :: g) :: rest), l') ->
  parse StringIO t = Some r ->
  parse m (text r) = Some a ->
  parse_output_string (S (S (S fuel))) m txt pv mr s
  = (Return a,
     {| llm := l';
        calls := calls s ++
          [(to_string fix_output_format_prompt
              (OutputStringAndPrompt txt (PromptValue_to_string pv)),
            {| n := 1; temperature := None; stop := None; callbacks := [] |})] |}).
Proof.
  intros Hm Hmr Hl Hr Ha.
  rewrite parse_output_string_S, Hm.
  destruct (Z.eqb_spec mr 0) as [|_]; [contradiction|]. cbn [negb].
  erewrite bind_Return.
  - rewrite parse_output_string_S, Ha. reflexivity.
  - rewrite generate_S. unfold process_input.
    erewrite bind_Return by (apply call_llm_ok; exact Hl).
    erewrite bind_Return by (eapply generation_text_ok; reflexivity).
    rewrite parse_output_string_S. cbn [fix_output_format_prompt output_model].
    rewrite Hr. reflexivity.
Qed.

(** X10 ([PydanticPrompt.generate], first text parses): when the first
    generation of the model call parses, [generate] returns the parsed
    object after that one model call; the budget is not touched and no
    repair call is made. *)
Theorem generate_parses_at_once fuel (self : PydanticPrompt) data tmp st cb
    (s : pstate) t g rest l' a :
  llm_generate (to_string self data)
    {| n := 1; temperature := tmp; stop := st; callbacks := cb |} (llm s)
  = (inr ((t :: g) :: rest), l') ->
  parse (output_model self) t = Some a ->
  generate (S (S fuel)) self data tmp st cb s
  = (Return a,
     {| llm := l';
        calls := calls s ++ [(to_string self data,
                   {| n := 1; temperature := tmp; stop := st;
                      callbacks := cb |})] |}).
Proof.
  intros Hl Ha. rewrite generate_S. unfold process_input.
  erewrite bind_Return by (apply call_llm_ok; exact Hl).
  erewrite bind_Return by (eapply generation_text_ok; reflexivity).
  rewrite parse_output_string_S, Ha. reflexivity.
Qed.

(** A repair with repairs that parse at once comes back or runs into the
    bound; it raises nothing. *)
Lemma repair_returns_or_diverges fuel data (s : pstate) :
  responsive ->
  (forall txt, is_Some (parse StringIO txt)) ->
  (exists r s', generate fuel fix_output_format_prompt data None None [] s
                = (Return r, s'))
  \/ (exists s', generate fuel fix_output_format_prompt data None None [] s
                 = (Diverge, s')).
Proof.
  intros Hr Hsio. destruct fuel as [|[|fuel]].
  - right. eexists. reflexivity.
  - right.
    destruct (generate_step 0 fix_output_format_prompt data None None [] s Hr)
      as (t & s1 & _ & ->).
    eexists. reflexivity.
  - left. destruct (repair_returns fuel data s Hr Hsio) as (r & s' & Hg & _).
    eauto.
Qed.

(** X11 ([parse_output_string], negative budget): the budget is tested with
    [!= 0] and then lowered, so a budget below 0 is never used up: against a
    target decoder that refuses every text, with repairs that parse at once,
    the terminal error is never raised and the loop does not come back. *)
Theorem negative_budget_never_exhausts m :
  responsive ->
  (forall txt, parse m txt = None) ->
  (forall txt, is_Some (parse StringIO txt)) ->
  forall fuel txt pv mr (s : pstate),
    mr < 0 ->
    exists s', parse_output_string fuel m txt pv mr s = (Diverge, s').
Proof.
  intros Hr Hm Hsio.
  induction fuel as [|fuel IH]; intros txt pv mr s Hmr; [eexists; reflexivity|].
  rewrite parse_output_string_S, Hm.
  destruct (Z.eqb_spec mr 0) as [|_]; [lia|]. cbn [negb].
  destruct (repair_returns_or_diverges fuel
              (OutputStringAndPrompt txt (PromptValue_to_string pv)) s Hr Hsio)
    as [(r & s1 & Hg)|(s1 & Hg)].
  - erewrite bind_Return by exact Hg. apply IH. lia.
  - exists s1. now apply bind_Diverge.
Qed.

(** The loop of [generate_multiple] on candidates that parse at once. *)
Lemma generate_multiple_loop_all_parse fuel (self : PydanticPrompt) data pv resp g
    (s : pstate) :
  resp !! 0%nat = Some g ->
  forall k from acc,
    (from + k <= length g)%nat ->
    Forall (fun t => is_Some (parse (output_model self) t)) (take k (drop from g)) ->
    exists outs,
      generate_multiple_loop (S fuel) self data pv resp (seq from k) acc s
      = (Return (acc ++ outs), s)
      /\ Forall2 (fun t o => parse (output_model self) t = Some o)
           (take k (drop from g)) outs.
Proof.
  intros Hg. induction k as [|k IH]; intros from acc Hlen Hall.
  - exists []. split; [cbn; now rewrite app_nil_r|constructor].
  - destruct (lookup_lt_is_Some_2 g from) as [t Ht]; [lia|].
    rewrite (drop_S _ _ _ Ht) in Hall |- *. cbn [take] in Hall |- *.
    apply Forall_cons in Hall as [[o Ho] Hall].
    destruct (IH (S from) (acc ++ [process_output self o data])) as (outs & Hrun & Hf2);
      [lia|exact Hall|].
    exists (o :: outs). split; [|now constructor].
    cbn [seq generate_multiple_loop].
    erewrite bind_Return by (eapply generation_text_ok; eassumption).
    erewrite bind_Return by (rewrite parse_output_string_S, Ho; reflexivity).
    rewrite Hrun. unfold process_output. now rewrite <- app_assoc.
Qed.

(** X12 ([PydanticPrompt.generate_multiple], all candidates parse): one model
    call is made, for [n] generations; when the first [n] generations parse,
    their parsed objects are returned in the order of the generations.  For
    [n <= 0] the list is empty. *)
Theorem generate_multiple_all_parse fuel (self : PydanticPrompt) data k tmp st cb
    (s : pstate) resp l' g :
  llm_generate (to_string self data)
    {| n := k; temperature := tmp; stop := st; callbacks := cb |} (llm s)
  = (inr resp, l') ->
  resp !! 0%nat = Some g ->
  (Z.to_nat k <= length g)%nat ->
  Forall (fun t => is_Some (parse (output_model self) t)) (take (Z.to_nat k) g) ->
  exists outs,
    generate_multiple (S (S fuel)) self data k tmp st cb s
    = (Return outs,
       {| llm := l';
          calls := calls s ++ [(to_string self data,
                     {| n := k; temperature := tmp; stop := st;
                        callbacks := cb |})] |})
    /\ Forall2 (fun t o => parse (output_model self) t = Some o)
         (take (Z.to_nat k) g) outs.
Proof.
  intros Hl Hg Hlen Hall.
  destruct (generate_multiple_loop_all_parse fuel self data
              {| prompt_str := to_string self data |} resp g
              {| llm := l';
                 calls := calls s ++ [(to_string self data,
                            {| n := k; temperature := tmp; stop := st;
                               callbacks := cb |})] |}
              Hg (Z.to_nat k) 0%nat []) as (outs & Hrun & Hf2);
    [lia|exact Hall|].
  exists outs. split; [|exact Hf2].
  unfold generate_multiple, process_input.
  erewrite bind_Return by (apply call_llm_ok; exact Hl).
  exact Hrun.
Qed.

(** X13 ([generate] and [generate_multiple], missing generations): when the
    client's answer has no first generation, [generate] raises [IndexError]
    after its model call; when it has fewer than [n] generations and those
    parse, [generate_multiple] raises [IndexError] as well, and returns
    none of the objects it parsed. *)
Theorem missing_generation_raises :
  (forall fuel (self : PydanticPrompt) data tmp st cb (s : pstate) resp l',
      llm_generate (to_string self data)
        {| n := 1; temperature := tmp; stop := st; callbacks := cb |} (llm s)
      = (inr resp, l') ->
      resp = [] \/ (exists rest, resp = [] :: rest) ->
      generate (S fuel) self data tmp st cb s
      = (Raise IndexError,
         {| llm := l';
            calls := calls s ++ [(to_string self data,
                       {| n := 1; temperature := tmp; stop := st;
                          callbacks := cb |})] |}))
  /\ (forall fuel (self : PydanticPrompt) data k tmp st cb (s : pstate) resp l' g,
      llm_generate (to_string self data)
        {| n := k; temperature := tmp; stop := st; callbacks := cb |} (llm s)
      = (inr resp, l') ->
      resp !! 0%nat = Some g ->
      (length g < Z.to_nat k)%nat ->
      Forall (fun t => is_Some (parse (output_model self) t)) g ->
      generate_multiple (S (S fuel)) self data k tmp st cb s
      = (Raise IndexError,
         {| llm := l';
            calls := calls s ++ [(to_string self data,
                       {| n := k; temperature := tmp; stop := st;
                          callbacks := cb |})] |})).
Proof.
  split.
  - intros fuel self data tmp st cb s resp l' Hl Hresp.
    rewrite generate_S. unfold process_input.
    erewrite bind_Return by (apply call_llm_ok; exact Hl).
    apply bind_Raise.
    destruct Hresp as [->|[rest ->]]; reflexivity.
  - intros fuel self data k tmp st cb s resp l' g Hl Hg Hlen Hall.
    unfold generate_multiple, process_input.
    erewrite bind_Return by (apply call_llm_ok; exact Hl).
    replace (seq 0 (Z.to_nat k))
      with (seq 0 (length g) ++ length g :: seq (S (length g)) (Z.to_nat k - S (length g))).
    2: { replace (Z.to_nat k) with (length g + S (Z.to_nat k - S (length g)))%nat at 2
           by lia.
         rewrite seq_app. reflexivity. }
    rewrite generate_multiple_loop_app.
    destruct (generate_multiple_loop_all_parse fuel self data
                {| prompt_str := to_string self data |} resp g
                {| llm := l';
                   calls := calls s ++ [(to_string self data,
                              {| n := k; temperature := tmp; stop := st;
                                 callbacks := cb |})] |}
                Hg (length g) 0%nat []) as (outs & Hrun & _).
    { lia. }
    { rewrite drop_0, firstn_all. exact Hall. }
    erewrite bind_Return by exact Hrun.
    cbn [generate_multiple_loop]. apply bind_Raise.
    unfold generation_text. rewrite Hg.
    rewrite (lookup_ge_None_2 g (length g)) by lia. reflexivity.
Qed.

End InvokerMore.


(** *** The properties of the invoker on concrete collaborators *)

Import Fixtures MoreFixtures.

Lemma repair_succeeds_once_witness :
  (@parse_output_string unit model string (always_answers "good") good_parses
     3 M_Answer "bad" question 3 start).1
  = Return "good".
Proof.
  erewrite (@repair_succeeds_once unit model string (always_answers "good")
              good_parses 0 M_Answer "bad" question 3 start "good" [] [] tt
              "good" "good" eq_refl _ eq_refl eq_refl eq_refl).
  - reflexivity.
  Unshelve. lia.
Defined.

Lemma generate_parses_at_once_witness :
  (@generate unit model string (always_answers "good") good_parses
     2 answer_prompt "q" None None [] start).1
  = Return "good".
Proof.
  now rewrite (@generate_parses_at_once unit model string (always_answers "good")
                 good_parses 0 answer_prompt "q" None None [] start
                 "good" [] [] tt "good" eq_refl eq_refl).
Defined.

Lemma negative_budget_witness :
  exists s',
    @parse_output_string unit model string (always_answers "oops") repairs_parse
      50 M_Answer "oops" question (-1) start = (Diverge, s').
Proof.
  apply (@negative_budget_never_exhausts unit model string (always_answers "oops")
           repairs_parse M_Answer (always_answers_responsive "oops")
           (fun _ => eq_refl) (fun t => ex_intro _ t eq_refl)).
  lia.
Defined.

Lemma generate_multiple_all_parse_witness :
  exists outs,
    (@generate_multiple unit model string (two_candidates "good" "good") good_parses
       2 answer_prompt "q" 2 None None [] start).1 = Return outs
    /\ length outs = 2%nat.
Proof.
  destruct (@generate_multiple_all_parse unit model string
              (two_candidates "good" "good") good_parses 0 answer_prompt "q" 2
              None None [] start [["good"; "good"]] tt ["good"; "good"]
              eq_refl eq_refl) as (outs & Hrun & Hf2).
  - cbn. lia.
  - repeat constructor; eexists; reflexivity.
  - exists outs. rewrite Hrun. split; [reflexivity|].
    apply Forall2_length in Hf2. now rewrite <- Hf2.
Defined.

Lemma missing_generation_witness :
  (@generate unit model string answers_nothing good_parses
     1 answer_prompt "q" None None [] start).1
  = Raise IndexError.
Proof.
  now rewrite (proj1 (@missing_generation_raises unit model string answers_nothing
                        good_parses)
                 0%nat answer_prompt "q" None None [] start [] tt eq_refl
                 (or_introl eq_refl)).
Defined.

End PromptMore.

Module StringPromptFacts.
Import Prompt StringPrompts PromptFacts.

Section Facts.

Context {L : Type} `{TextLLM L}.

Local Abbreviation pstate := (Prompt.pstate L).

Lemma StringPrompt_generate_ok data tmp st cb (s : pstate) :
  text_responsive ->
  exists t s',
    StringPrompt_generate data tmp st cb s = (Return t, s')
    /\ calls s' = calls s ++ [(data, {| n := 1; temperature := tmp; stop := st;
                                        callbacks := cb |})].
Proof.
  intros Hr.
  destruct (Hr data {| n := 1; temperature := tmp; stop := st; callbacks := cb |}
              (llm s)) as (t & g & rest & l' & Hl).
  exists t. eexists. split.
  - unfold StringPrompt_generate, bind, call_text_llm. cbn [prompt_str].
    rewrite Hl. reflexivity.
  - reflexivity.
Qed.

(** X14 ([StringPrompt.generate_multiple], one call per text): with a client
    that answers, [n] texts are returned, and [n] model calls are made, each
    for one generation of the same prompt; for [n <= 0] no call is made. *)
Theorem StringPrompt_generate_multiple_calls data k tmp st cb (s : pstate) :
  text_responsive ->
  exists texts s',
    StringPrompt_generate_multiple data k tmp st cb s = (Return texts, s')
    /\ length texts = Z.to_nat k
    /\ calls s'
       = calls s ++ replicate (Z.to_nat k)
                      (data, {| n := 1; temperature := tmp; stop := st;
                                callbacks := cb |}).
Proof.
  intros Hr. unfold StringPrompt_generate_multiple.
  generalize (Z.to_nat k) as turns. intros turns. revert s.
  induction turns as [|turns IH]; intros s.
  - exists [], s. repeat split. cbn. now rewrite app_nil_r.
  - destruct (StringPrompt_generate_ok data tmp st cb s Hr) as (t & s1 & Hg & Hc1).
    destruct (IH s1) as (texts & s' & Hrun & Hlen & Hc).
    exists (t :: texts), s'. split; [|split].
    + cbn [StringPrompt_generate_each].
      erewrite bind_Return by exact Hg.
      erewrite bind_Return by exact Hrun. reflexivity.
    + cbn. now rewrite Hlen.
    + rewrite Hc, Hc1. cbn [replicate]. now rewrite <- app_assoc.
Qed.

(** X15 ([StringPrompt.generate_multiple], failure): when the first model
    call raises and [n >= 1], the error goes out after that one call and no
    text is returned. *)
Theorem StringPrompt_generate_multiple_fails data k tmp st cb (s : pstate) e l' :
  llm_agenerate_text data
    {| n := 1; temperature := tmp; stop := st; callbacks := cb |} (llm s)
  = (inl e, l') ->
  0 < k ->
  StringPrompt_generate_multiple data k tmp st cb s
  = (Raise e,
     {| llm := l';
        calls := calls s ++ [(data, {| n := 1; temperature := tmp; stop := st;
                                       callbacks := cb |})] |}).
Proof.
  intros Hl Hk. unfold StringPrompt_generate_multiple.
  destruct (Z.to_nat k) as [|turns] eqn:Hn; [lia|].
  cbn [StringPrompt_generate_each]. apply bind_Raise.
  unfold StringPrompt_generate. apply bind_Raise.
  unfold call_text_llm. cbn [prompt_str]. now rewrite Hl.
Qed.

End Facts.

Import Fixtures MoreFixtures.

Lemma StringPrompt_calls_witness :
  exists texts s',
    @StringPrompt_generate_multiple unit (text_always_answers "hello")
      "Say hello." 3 None None [] start = (Return texts, s')
    /\ length texts = Z.to_nat 3
    /\ calls s' = calls start ++ replicate (Z.to_nat 3) ("Say hello.", plain_options).
Proof.
  apply (@StringPrompt_generate_multiple_calls unit (text_always_answers "hello")).
  intros p o l. exists "hello", [], [], l. reflexivity.
Defined.

Lemma StringPrompt_fails_witness :
  @StringPrompt_generate_multiple unit (text_always_fails (OtherError "timeout"))
    "Say hello." 3 None None [] start
  = (Raise (OtherError "timeout"),
     {| llm := tt; calls := calls start ++ [("Say hello.", plain_options)] |}).
Proof.
  apply (@StringPrompt_generate_multiple_fails unit
           (text_always_fails (OtherError "timeout"))
           "Say hello." 3 None None [] start (OtherError "timeout") tt eq_refl).
  lia.
Defined.

End StringPromptFacts.

Module CacheMore.
Import Cache CacheNotions CacheFacts Fixtures.

Lemma invocations_app l1 l2 :
  invocations (l1 ++ l2) = (invocations l1 + invocations l2)%nat.
Proof. unfold invocations. now rewrite List.filter_app, length_app. Qed.

Section Runs.

Context {W : Type}.

Local Abbreviation dstate := (Cache.cstate DiskCacheBackend W).






End Runs.

Section AnyBackend.

Context {B W : Type} `{CacheInterface B}.

Local Abbreviation cstate := (Cache.cstate B W).

(** X17 (wrappers, switch off): with the switch off a run of [n] calls calls
    the callable [n] times, in order, and does nothing else: the backend is
    as before and the log grows by the calls only. *)
Theorem disabled_run_calls_through (func : pyfunc W) cs (s : cstate) :
  is_caching_enabled s = false ->
  backend (run_calls func cs s).2 = backend s
  /\ trace (run_calls func cs s).2
     = trace s ++ map (fun c => EvCall c.1 c.2) cs
  /\ invocations (trace (run_calls func cs s).2)
     = (invocations (trace s) + length cs)%nat.
Proof.
  intros Hoff.
  assert (Hrun : backend (run_calls func cs s).2 = backend s
                 /\ trace (run_calls func cs s).2
                    = trace s ++ map (fun c => EvCall c.1 c.2) cs).
  { revert s Hoff. induction cs as [|c cs IH]; intros s Hoff.
    - cbn. now rewrite app_nil_r.
    - cbn [run_calls]. rewrite (wrapper_disabled func c.1 c.2 s Hoff).
      destruct (body func c.1 c.2 (world s)) as [r w1] eqn:Hbody.
      rewrite (call_func_run func c.1 c.2 s r w1 Hbody).
      match goal with |- context [run_calls func cs ?s1] =>
        specialize (IH s1 Hoff); destruct (run_calls func cs s1) as [rs s2] end.
      cbn [snd trace backend map] in IH |- *. destruct IH as [-> ->].
      now rewrite <- app_assoc. }
  destruct Hrun as [Hb Ht]. split; [exact Hb|split; [exact Ht|]].
  rewrite Ht, invocations_app. f_equal.
  unfold invocations. clear. induction cs as [|c cs IH]; [reflexivity|].
  cbn. now rewrite IH.
Qed.

End AnyBackend.

(** *** More on the canonical form *)

Lemma tuple_items_model_dump l :
  tuple_items (model_dump_value <$> l) = tuple_items l.
Proof.
  induction l as [|x r IH]; [reflexivity|].
  cbn [fmap list_fmap tuple_items]. fold (model_dump_value <$> r).
  now rewrite _make_hashable_model_dump_value, IH.
Qed.

Lemma filter_kwargs_model_dump kwargs :
  filter_kwargs ((fun kv => (kv.1, model_dump_value kv.2)) <$> kwargs)
  = (fun kv => (kv.1, model_dump_value kv.2)) <$> filter_kwargs kwargs.
Proof.
  unfold filter_kwargs. induction kwargs as [|[k v] r IH]; [reflexivity|].
  cbn [fmap list_fmap List.filter fst snd] in *.
  destruct (negb (excluded k)); cbn [fmap list_fmap fst snd]; now rewrite IH.
Qed.

Lemma dict_pairs_model_dump (kw : list (string * pyval)) :
  dict_pairs (map (fun kv => (HStr kv.1, kv.2))
                ((fun kv => (kv.1, model_dump_value kv.2)) <$> kw))
  = dict_pairs (map (fun kv => (HStr kv.1, kv.2)) kw).
Proof.
  induction kw as [|[k v] r IH]; [reflexivity|].
  cbn [fmap list_fmap map dict_pairs fst snd] in *.
  now rewrite _make_hashable_model_dump_value, IH.
Qed.

(** X19 ([_generate_cache_key], models): a pydantic model anywhere inside the
    arguments counts as the mapping [model_dump()] gives for it: putting the
    dumps in place of the models in every argument leaves the key as it is. *)
Theorem cache_key_model_dump {W} (func : pyfunc W) args kwargs :
  _generate_cache_key func (model_dump_value <$> args)
    ((fun kv => (kv.1, model_dump_value kv.2)) <$> kwargs)
  = _generate_cache_key func args kwargs.
Proof.
  unfold _generate_cache_key. cbv zeta.
  rewrite filter_kwargs_model_dump.
  replace (if ismethod func then tail (model_dump_value <$> args)
           else model_dump_value <$> args)
    with (model_dump_value <$> (if ismethod func then tail args else args))
    by (destruct (ismethod func), args; reflexivity).
  rewrite !_make_hashable_PTuple, tuple_items_model_dump.
  unfold kwargs_dict. rewrite !_make_hashable_PDict, dict_pairs_model_dump.
  reflexivity.
Qed.

(** Sorting values of one scalar type, given by [inj], with the order
    [ltb]. *)
Section ScalarSort.

Context {K : Type} (inj : K -> hval) (ltb : K -> K -> bool).

Hypothesis inj_lt : forall a b, py_lt (inj a) (inj b) = Some (ltb a b).
Hypothesis ltb_asym : forall a b, ltb a b = true -> ltb b a = false.
Hypothesis leb_trans : forall a b c, ltb b a = false -> ltb c b = false -> ltb c a = false.
Hypothesis leb_antisym : forall a b, ltb a b = false -> ltb b a = false -> a = b.

Local Abbreviation le := (fun a b : K => ltb b a = false).

Lemma insert_sorted_scalar x l :
  StronglySorted le l ->
  exists l', insert_sorted (inj x) (inj <$> l) = Some (inj <$> l')
             /\ l' ≡ₚ x :: l /\ StronglySorted le l'.
Proof.
  intros Hs. induction l as [|y r IH].
  - exists [x]. repeat split; [reflexivity|]. repeat constructor.
  - apply StronglySorted_inv in Hs as [Hsr Hyr].
    cbn [fmap list_fmap insert_sorted]. rewrite inj_lt. cbn.
    destruct (ltb y x) eqn:Hlt.
    + destruct (IH Hsr) as (r' & Hins & Hp & Hs').
      fold (inj <$> r). rewrite Hins. cbn.
      exists (y :: r'). repeat split.
      * rewrite Hp. apply perm_swap.
      * constructor; [exact Hs'|]. rewrite Hp.
        constructor; [now apply ltb_asym|exact Hyr].
    + exists (x :: y :: r). repeat split; [reflexivity|].
      constructor; [constructor; assumption|].
      constructor; [exact Hlt|].
      eapply Forall_impl; [exact Hyr|]. intros z Hz. cbn beta in *.
      eapply leb_trans; eassumption.
Qed.

Lemma sorted_scalar l :
  exists l', sorted (inj <$> l) = Some (inj <$> l')
             /\ l' ≡ₚ l /\ StronglySorted le l'.
Proof.
  induction l as [|x r (r' & Hsr & Hp & Hs)].
  - exists []. repeat split; constructor.
  - destruct (insert_sorted_scalar x r' Hs) as (l' & Hins & Hp' & Hs').
    exists l'. repeat split; [|now rewrite Hp', Hp|exact Hs'].
    cbn [fmap list_fmap sorted]. fold (inj <$> r). rewrite Hsr. exact Hins.
Qed.

Lemma sorted_scalar_Permutation l1 l2 :
  l1 ≡ₚ l2 ->
  sorted (inj <$> l1) = sorted (inj <$> l2) /\ is_Some (sorted (inj <$> l1)).
Proof.
  intros Hp.
  destruct (sorted_scalar l1) as (s1 & E1 & P1 & S1).
  destruct (sorted_scalar l2) as (s2 & E2 & P2 & S2).
  rewrite E1, E2. split; [|eauto]. do 2 f_equal.
  apply (StronglySorted_unique_strong le); [|exact S1|exact S2|].
  - intros a b _ _ Hab Hba. cbn beta in *. now apply leb_antisym.
  - now rewrite P1, P2, Hp.
Qed.

End ScalarSort.

Lemma string_leb_trans (a b c : string) :
  String.ltb b a = false -> String.ltb c b = false -> String.ltb c a = false.
Proof.
  intros Hab Hbc. destruct (String.ltb c a) eqn:Hca; [|reflexivity].
  destruct (String.eqb_spec a b) as [->|Hne]; [congruence|].
  pose proof (ltb_total b a (not_eq_sym Hne) Hab) as Hlt.
  pose proof (ltb_trans c a b Hca Hlt). congruence.
Qed.

Lemma string_leb_antisym (a b : string) :
  String.ltb a b = false -> String.ltb b a = false -> a = b.
Proof.
  intros Hab Hba. destruct (String.eqb_spec a b) as [|Hne]; [assumption|].
  pose proof (ltb_total a b Hne Hab). congruence.
Qed.

Lemma string_ltb_asym (a b : string) :
  String.ltb a b = true -> String.ltb b a = false.
Proof.
  intros Hab. destruct (String.ltb b a) eqn:Hba; [|reflexivity].
  destruct (ltb_asym a b Hab Hba).
Qed.

Lemma sorted_ints_Permutation (zs1 zs2 : list Z) :
  zs1 ≡ₚ zs2 ->
  sorted (HInt <$> zs1) = sorted (HInt <$> zs2)
  /\ is_Some (sorted (HInt <$> zs1)).
Proof.
  apply (sorted_scalar_Permutation HInt Z.ltb).
  - reflexivity.
  - intros a b. rewrite Z.ltb_lt, Z.ltb_ge. lia.
  - intros a b c. rewrite !Z.ltb_ge. lia.
  - intros a b. rewrite !Z.ltb_ge. lia.
Qed.

Lemma sorted_strings_Permutation (ts1 ts2 : list string) :
  ts1 ≡ₚ ts2 ->
  sorted (HStr <$> ts1) = sorted (HStr <$> ts2)
  /\ is_Some (sorted (HStr <$> ts1)).
Proof.
  apply (sorted_scalar_Permutation HStr String.ltb).
  - reflexivity.
  - exact string_ltb_asym.
  - exact string_leb_trans.
  - exact string_leb_antisym.
Qed.

(** X20 ([_make_hashable], sets): a set of integers, or of strings, has a
    canonical form, and it is the same whatever order the set gives its
    elements in. *)
Theorem set_order_does_not_matter :
  (forall zs1 zs2 : list Z,
      zs1 ≡ₚ zs2 ->
      _make_hashable (PSet (HInt <$> zs1)) = _make_hashable (PSet (HInt <$> zs2))
      /\ is_Some (_make_hashable (PSet (HInt <$> zs1))))
  /\ (forall ts1 ts2 : list string,
      ts1 ≡ₚ ts2 ->
      _make_hashable (PSet (HStr <$> ts1)) = _make_hashable (PSet (HStr <$> ts2))
      /\ is_Some (_make_hashable (PSet (HStr <$> ts1)))).
Proof.
  split.
  - intros zs1 zs2 Hp. rewrite !_make_hashable_PSet.
    destruct (sorted_ints_Permutation zs1 zs2 Hp) as [<- [l ->]].
    split; [reflexivity|eexists; reflexivity].
  - intros ts1 ts2 Hp. rewrite !_make_hashable_PSet.
    destruct (sorted_strings_Permutation ts1 ts2 Hp) as [<- [l ->]].
    split; [reflexivity|eexists; reflexivity].
Qed.







(** *** Values without an order *)

Lemma py_lt_kind x y b : py_lt x y = Some b -> kind x = kind y.
Proof. destruct x, y; cbn [py_lt kind]; try discriminate; reflexivity. Qed.

Lemma insert_sorted_Permutation x l l' :
  insert_sorted x l = Some l' -> l' ≡ₚ x :: l.
Proof.
  revert l'. induction l as [|y r IH]; intros l'; cbn [insert_sorted].
  - intros [= <-]. reflexivity.
  - destruct (py_lt y x) as [[|]|]; cbn; [|intros [= <-]; reflexivity|discriminate].
    destruct (insert_sorted x r) as [r'|]; cbn; [|discriminate].
    intros [= <-]. rewrite (IH r' eq_refl). apply perm_swap.
Qed.

Lemma sorted_Permutation l l' : sorted l = Some l' -> l' ≡ₚ l.
Proof.
  revert l'. induction l as [|x r IH]; intros l'; cbn [sorted].
  - intros [= <-]. reflexivity.
  - destruct (sorted r) as [r'|]; cbn; [|discriminate].
    intros Hins. rewrite (insert_sorted_Permutation _ _ _ Hins).
    now rewrite (IH r' eq_refl).
Qed.

(** When [sorted] returns, the values it was given are of one kind. *)
Lemma sorted_one_kind l l' :
  sorted l = Some l' -> forall x y, x ∈ l -> y ∈ l -> kind x = kind y.
Proof.
  revert l'. induction l as [|x0 r IH]; intros l' Hs x y Hx Hy.
  - inversion Hx.
  - cbn [sorted] in Hs. destruct (sorted r) as [r'|] eqn:Hr; [|discriminate].
    cbn in Hs. pose proof (sorted_Permutation r r' Hr) as Hp.
    specialize (IH r' eq_refl).
    destruct r' as [|y0 r'].
    + apply Permutation_nil in Hp. subst r.
      apply list_elem_of_singleton in Hx, Hy. congruence.
    + assert (Hy0 : y0 ∈ r) by (rewrite <- Hp; left).
      assert (Hk0 : kind y0 = kind x0).
      { cbn [insert_sorted] in Hs. destruct (py_lt y0 x0) as [b|] eqn:Hlt;
          [|discriminate]. exact (py_lt_kind _ _ _ Hlt). }
      assert (Hall : forall z, z ∈ x0 :: r -> kind z = kind y0).
      { intros z Hz. apply elem_of_cons in Hz as [->|Hz]; [congruence|].
        now apply IH. }
      rewrite (Hall x Hx), (Hall y Hy). reflexivity.
Qed.

Lemma tuple_items_None l x :
  x ∈ l -> _make_hashable x = None -> tuple_items l = None.
Proof.
  intros Hx Hnone. induction l as [|y r IH]; [inversion Hx|].
  cbn [tuple_items]. apply elem_of_cons in Hx as [<-|Hx].
  - now rewrite Hnone.
  - rewrite (IH Hx). now destruct (_make_hashable y).
Qed.

(** X22 ([_make_hashable] and the wrapper, sets without an order): a set that
    holds an integer and a string has no canonical form, in whatever order it
    gives its elements; a call with such a set among its positional arguments
    raises [TypeError] when caching is on, before the callable is called or
    the backend is asked. *)
Theorem mixed_set_raises :
  (forall elems a b,
      HInt a ∈ elems -> HStr b ∈ elems -> _make_hashable (PSet elems) = None)
  /\ (forall B W (I : CacheInterface B) (func : pyfunc W) args kwargs
        (s : cstate B W) elems a b,
      ismethod func = false ->
      PSet elems ∈ args -> HInt a ∈ elems -> HStr b ∈ elems ->
      is_caching_enabled s = true ->
      decorator func args kwargs s = (Raise TypeError, s)).
Proof.
  assert (Hset : forall elems a b,
      HInt a ∈ elems -> HStr b ∈ elems -> _make_hashable (PSet elems) = None).
  { intros elems a b Ha Hb. rewrite _make_hashable_PSet.
    destruct (sorted elems) as [l|] eqn:Hs; [|reflexivity].
    pose proof (sorted_one_kind elems l Hs _ _ Ha Hb) as Hk. discriminate. }
  split; [exact Hset|].
  intros B W I func args kwargs s elems a b Hm Hin Ha Hb Hon.
  apply wrapper_unkeyable; [exact Hon|].
  unfold _generate_cache_key. cbv zeta. rewrite Hm, _make_hashable_PTuple.
  now rewrite (tuple_items_None args (PSet elems) Hin (Hset elems a b Ha Hb)).
Qed.

(** *** The form of the key *)

Lemma round_length st kw : length (SHA256.round st kw) = length st.
Proof.
  destruct st as [|a [|b [|c [|d [|e [|f [|g [|h [|i r]]]]]]]]]; reflexivity.
Qed.

Lemma compress_length h block : length (SHA256.compress h block) = length h.
Proof.
  unfold SHA256.compress. rewrite length_map, length_combine.
  assert (Hfold : forall l st, length (fold_left SHA256.round l st) = length st).
  { induction l as [|kw l IH]; intros st; [reflexivity|].
    cbn [fold_left]. now rewrite IH, round_length. }
  rewrite Hfold. lia.
Qed.

Lemma digest_length msg : length (SHA256.digest msg) = 8%nat.
Proof.
  unfold SHA256.digest.
  assert (Hfold : forall bs h, length (fold_left SHA256.compress bs h) = length h).
  { induction bs as [|b bs IH]; intros h; [reflexivity|].
    cbn [fold_left]. now rewrite IH, compress_length. }
  now rewrite Hfold.
Qed.

Lemma string_length_app (a b : string) :
  String.length (a +:+ b) = (String.length a + String.length b)%nat.
Proof. induction a as [|c a IH]; [reflexivity|]. simpl. now rewrite IH. Qed.

Lemma all_hex_app (a b : string) : all_hex (a +:+ b) = all_hex a && all_hex b.
Proof.
  induction a as [|c a IH]; [reflexivity|]. simpl. now rewrite IH, andb_assoc.
Qed.

Lemma hex_digit_is_hex d : 0 <= d < 16 -> is_hex_digit (SHA256.hex_digit d) = true.
Proof.
  intros Hd.
  assert (d = 0 \/ d = 1 \/ d = 2 \/ d = 3 \/ d = 4 \/ d = 5 \/ d = 6 \/ d = 7
          \/ d = 8 \/ d = 9 \/ d = 10 \/ d = 11 \/ d = 12 \/ d = 13 \/ d = 14
          \/ d = 15) as Hcases by lia.
  repeat (destruct Hcases as [->|Hcases]; [reflexivity|]). now subst.
Qed.

Lemma hex_form k x :
  String.length (SHA256.hex k x) = k /\ all_hex (SHA256.hex k x) = true.
Proof.
  revert x. induction k as [|k IH]; intros x; [split; reflexivity|].
  cbn [SHA256.hex]. destruct (IH (x / 16)) as [Hlen Hhex].
  change (String.append ?a ?b) with (a +:+ b).
  rewrite string_length_app, all_hex_app, Hlen, Hhex. cbn.
  rewrite hex_digit_is_hex by (apply Z.mod_pos_bound; lia). split; [lia|reflexivity].
Qed.

Lemma concat_hex_form (ws : list Z) :
  String.length (String.concat "" (map (SHA256.hex 8) ws)) = (8 * length ws)%nat
  /\ all_hex (String.concat "" (map (SHA256.hex 8) ws)) = true.
Proof.
  induction ws as [|w ws [IHl IHh]]; [split; reflexivity|].
  destruct (hex_form 8 w) as [Hl Hh].
  destruct ws as [|w' ws].
  - cbn [map String.concat length]. rewrite Hl, Hh. split; [lia|reflexivity].
  - change (String.concat "" (map (SHA256.hex 8) (w :: w' :: ws)))
      with (SHA256.hex 8 w +:+ ("" +:+ String.concat "" (map (SHA256.hex 8) (w' :: ws)))).
    rewrite !string_length_app, !all_hex_app, Hl, Hh, IHl, IHh.
    cbn [length String.length all_hex andb]. split; [lia|reflexivity].
Qed.

(** X23 ([_generate_cache_key], form of the key): a cache key is a string of
    64 hexadecimal digits in lower case, whatever the call. *)
Theorem cache_key_form {W} (func : pyfunc W) args kwargs key :
  _generate_cache_key func args kwargs = Some key ->
  String.length key = 64%nat /\ all_hex key = true.
Proof.
  unfold _generate_cache_key. cbv zeta.
  destruct (_make_hashable (PTuple _)) as [a|]; [|discriminate].
  cbn [mbind option_bind].
  destruct (_make_hashable (kwargs_dict (filter_kwargs kwargs))) as [k|];
    [|discriminate].
  cbn [mbind option_bind]. intros [= <-]. unfold SHA256.hexdigest.
  destruct (concat_hex_form
              (SHA256.digest (SHA256.bytes_of_string
                                (json_dumps_key_data (qualname func) a k))))
    as [Hl Hh].
  rewrite digest_length in Hl. split; [exact Hl|exact Hh].
Qed.

(** *** The properties on concrete callables *)


Lemma disabled_run_witness :
  backend (run_calls counting three_calls (fresh env_off 0%nat)).2
  = backend (fresh env_off 0%nat)
  /\ trace (run_calls counting three_calls (fresh env_off 0%nat)).2
     = trace (fresh env_off 0%nat) ++ map (fun c => EvCall c.1 c.2) three_calls
  /\ invocations (trace (run_calls counting three_calls (fresh env_off 0%nat)).2)
     = (invocations (trace (fresh env_off 0%nat)) + length three_calls)%nat.
Proof.
  apply (disabled_run_calls_through counting three_calls (fresh env_off 0%nat)).
  reflexivity.
Defined.


Lemma cache_key_form_witness :
  String.length "b826056211ca62b40bfae82fa1be0cfc0312eeaa277b0ce874530a32f3639f44"
  = 64%nat
  /\ all_hex "b826056211ca62b40bfae82fa1be0cfc0312eeaa277b0ce874530a32f3639f44"
     = true.
Proof.
  apply (cache_key_form a_function [input_ab] []). vm_compute. reflexivity.
Defined.

Lemma mixed_set_witness :
  decorator answer_42 [mixed_set] [] (fresh env_on tt)
  = (Raise TypeError, fresh env_on tt).
Proof.
  apply (proj2 mixed_set_raises DiskCacheBackend unit _ answer_42 [mixed_set] []
           (fresh env_on tt) [HInt 1; HStr "a"] 1 "a").
  - reflexivity.
  - left.
  - left.
  - right. left.
  - reflexivity.
Defined.

End CacheMore.
